(** * brickoven: step-text templating and brick-graph rendering

    A shallow embedding of [src/frontend/src/create.tsx]:
    - the JavaScript built-ins the code calls ([String.prototype.substring],
      [parseInt], [Array.prototype.join], [String.prototype.matchAll] with the
      literal regular expression of [StepView.renderText]);
    - the data model ([Expression], [Step], [Brick], [BrickConnection]) and
      the factory functions [step], [brick], [connect];
    - the render methods of [StepView], [BrickView], [BrickConnectionView],
      with a thrown exception as an explicit [Throw] result;
    - the units and the [amount] factory, over an abstract type of numbers;
    and of the font links that [src/frontend/config/webpack.config.ts]
    builds from the page manifest.

    Strings are [String.string]; a character stands for one code unit of the
    JavaScript string, so offsets and lengths count characters. *)

From Stdlib Require Import String Ascii List ZArith Lia Bool Arith.
From Stdlib Require Import DecimalString.
Import ListNotations.

Local Open Scope string_scope.
Local Open Scope list_scope.

(** ** Exceptions *)

Inductive exn : Type :=
| Error (message : string)        (* throw new Error(message) *)
| TypeError (message : string).   (* raised by the runtime itself *)

Inductive result (A : Type) : Type :=
| Ok (a : A)
| Throw (e : exn).

Arguments Ok {A} a.
Arguments Throw {A} e.

Definition bind {A B : Type} (m : result A) (k : A -> result B) : result B :=
  match m with
  | Ok a => k a
  | Throw e => Throw e
  end.

Definition fmap {A B : Type} (f : A -> B) (m : result A) : result B :=
  bind m (fun a => Ok (f a)).

Notation "x <- m ;; k" := (bind m (fun x => k))
  (at level 61, m at next level, right associativity).

(** [xs.map(f)] where [f] may throw: elements are visited in array order and
    the first exception aborts the traversal. *)
Fixpoint mapM {A B : Type} (f : A -> result B) (xs : list A) : result (list B) :=
  match xs with
  | [] => Ok []
  | x :: xs' => y <- f x ;; ys <- mapM f xs' ;; Ok (y :: ys)
  end.

(** The two messages [renderText] throws, under the names the specification
    gives them. *)
Definition MalformedPlaceholderError : exn :=
  Error "missing index in regexp match".
Definition OutOfBoundsReferenceError : exn :=
  Error "attempted to reference out-of-bounds ingredient".

(** ** JavaScript built-ins *)

Module JS.

(** [s.substring(start, end)]: the arguments are swapped when
    [start > end] and clamped to the length of [s]. *)
Definition substring (start end_ : nat) (s : string) : string :=
  String.substring (Nat.min start end_)
                   (Nat.max start end_ - Nat.min start end_) s.

(** [s.substring(start)]. *)
Definition substring_from (start : nat) (s : string) : string :=
  String.substring start (String.length s - start) s.

(** [parts.join('')]. *)
Definition join (parts : list string) : string := String.concat "" parts.

Definition digit_of (c : ascii) : option Z :=
  let n := nat_of_ascii c in
  if (48 <=? n)%nat && (n <=? 57)%nat then Some (Z.of_nat (n - 48)) else None.

(** [\d] without the unicode flag: the ten ASCII digits. *)
Definition is_digit (c : ascii) : bool :=
  match digit_of c with Some _ => true | None => false end.

Fixpoint parse_digits (acc : Z) (s : string) : Z :=
  match s with
  | String c rest =>
      match digit_of c with
      | Some d => parse_digits (10 * acc + d) rest
      | None => acc
      end
  | EmptyString => acc
  end.

(** [parseInt(s)] on the strings [renderText] passes to it: the longest
    prefix of decimal digits, [None] standing for [NaN] when there is none.
    (Leading white space, a sign and the [0x] prefix are not modelled: the
    argument is always what [\d+?] matched.) *)
Definition parseInt (s : string) : option Z :=
  match s with
  | String c _ =>
      match digit_of c with
      | Some _ => Some (parse_digits 0 s)
      | None => None
      end
  | EmptyString => None
  end.

(** One element of the iterator [text.matchAll(re)] returns: [m.index] and
    [m[0]].  TypeScript types [index] as [number | undefined]. *)
Record RegExpMatch : Type := mkMatch {
  index : option nat;
  matched : string
}.

End JS.

(** ** The regular expression [/(?<!\\)\$\d+?/g] *)

Definition backslash : ascii := "\"%char.
Definition dollar : ascii := "$"%char.

Definition is_backslash (c : ascii) : bool := Ascii.eqb c backslash.
Definition is_dollar (c : ascii) : bool := Ascii.eqb c dollar.

(** [(?<!\\)]: the character before the current position, if there is one,
    is not a backslash. *)
Definition lookbehind_ok (prev : option ascii) : bool :=
  match prev with
  | Some c => negb (is_backslash c)
  | None => true
  end.

(** Does the expression match at offset [p] of [s]?  [\d+?] is lazy and
    nothing follows it in the pattern, so a match stops after the first
    digit: it is the dollar sign and one digit. *)
Definition placeholder_at (s : string) (p : nat) : bool :=
  lookbehind_ok (match p with O => None | S q => String.get q s end)
  && match String.get p s with Some c => is_dollar c | None => false end
  && match String.get (S p) s with Some d => JS.is_digit d | None => false end.

(** The scan of a global regular expression: [prev] is the character before
    the current offset [pos], [s] the text from [pos] on; after a match the
    scan resumes behind it. *)
Fixpoint scan (prev : option ascii) (pos : nat) (s : string)
  : list JS.RegExpMatch :=
  match s with
  | EmptyString => []
  | String c rest =>
      match rest with
      | String d rest' =>
          if lookbehind_ok prev && is_dollar c && JS.is_digit d
          then JS.mkMatch (Some pos) (String c (String d EmptyString))
                 :: scan (Some d) (S (S pos)) rest'
          else scan (Some c) (S pos) rest
      | EmptyString => []
      end
  end.

(** [text.matchAll(/(?<!\\)\$\d+?/g)], as the list the iterator yields. *)
Definition matchAll (text : string) : list JS.RegExpMatch := scan None 0 text.

(** ** Data model *)

(** [type Expression = { toExprContent(): string }]. *)
Record Expression : Type := mkExpression {
  toExprContent : unit -> string
}.

Record Tool : Type := mkTool {
  tool_id : string;
  tool_name : string;
  tool_description : option string;
  tool_icon : option string
}.

(** [type Ingredient]; the [amount] field (floating-point values) is left
    out, nothing in the render path reads it. *)
Record Ingredient : Type := mkIngredient {
  ingr_id : string;
  ingr_name : string;
  ingr_notes : option string;
  ingr_toExprContent : unit -> string
}.

Record Step : Type := mkStep {
  step_id : string;
  text : string;
  stepExpressions : list Expression;
  tools : list Tool
}.

(** [Brick] and [BrickConnection] refer to each other through the union
    [Brick | BrickConnection], here [BrickNode], whose [type] field is the
    constructor. *)
Inductive Brick : Type :=
| mkBrick (parent : option BrickNode) (id : string)
          (title : option string) (steps : list Step)
          (outputs : list Ingredient)
with BrickConnection : Type :=
| mkConnection (inputs : list BrickNode) (connectionMethod : string)
with BrickNode : Type :=
| IsBrick (b : Brick)             (* type: 'brick' *)
| IsConnection (c : BrickConnection).   (* type: 'connection' *)

Definition parent (b : Brick) : option BrickNode :=
  match b with mkBrick p _ _ _ _ => p end.
Definition brick_id (b : Brick) : string :=
  match b with mkBrick _ i _ _ _ => i end.
Definition title (b : Brick) : option string :=
  match b with mkBrick _ _ t _ _ => t end.
Definition steps (b : Brick) : list Step :=
  match b with mkBrick _ _ _ s _ => s end.
Definition outputs (b : Brick) : list Ingredient :=
  match b with mkBrick _ _ _ _ o => o end.

Definition inputs (c : BrickConnection) : list BrickNode :=
  match c with mkConnection i _ => i end.
Definition connectionMethod (c : BrickConnection) : string :=
  match c with mkConnection _ m => m end.

(** *** Factories

    [uuid()] is an explicit argument; [dashify] belongs to an external
    package and is an argument of [brick]. *)

Definition ingr_expression (i : Ingredient) : Expression :=
  mkExpression (ingr_toExprContent i).

Definition ingr (uuid : string) (name : string) (notes : option string)
  : Ingredient :=
  mkIngredient uuid name notes (fun _ => name).

Definition step (uuid : string) (text : string)
  (stepExpressions : list Expression) (tools : option (list Tool)) : Step :=
  mkStep uuid text stepExpressions
         (match tools with Some t => t | None => [] end).

Definition brick (dashify : string -> string) (uuid : string)
  (parent : option BrickNode) (steps : list Step)
  (outputs : option (list Ingredient)) (title : option string) : Brick :=
  mkBrick parent
          (match title with
           | Some (String c t) => dashify (String c t)
           | _ => uuid
           end)
          title steps
          (match outputs with Some o => o | None => [] end).

Definition connect (inputs : list BrickNode)
  (connectionMethod : string) : BrickConnection :=
  mkConnection inputs connectionMethod.

(** ** [StepView.renderText] *)

(** The body of the [for (const match of matches)] loop, threading
    [parts] and [cursorPos]. *)
Fixpoint renderLoop (text : string) (stepExpressions : list Expression)
  (matches : list JS.RegExpMatch) (cursorPos : nat) (parts : list string)
  : result (list string * nat) :=
  match matches with
  | [] => Ok (parts, cursorPos)
  | m :: more =>
      match JS.index m with
      | None | Some O => Throw (Error "missing index in regexp match")
      | Some index =>
          let matchText := JS.matched m in
          match JS.parseInt (JS.substring_from 1 matchText) with
          | None =>
              (* NaN passes both comparisons; stepExpressions[NaN] is
                 undefined *)
              Throw (TypeError "stepExpressions[expressionIndex] is undefined")
          | Some expressionIndex =>
              if (expressionIndex <? 0)%Z
                 || (expressionIndex >=? Z.of_nat (length stepExpressions))%Z
              then Throw (Error "attempted to reference out-of-bounds ingredient")
              else
                match nth_error stepExpressions (Z.to_nat expressionIndex) with
                | None =>
                    Throw (TypeError "stepExpressions[expressionIndex] is undefined")
                | Some e =>
                    renderLoop text stepExpressions more
                      (index + String.length matchText)
                      (parts ++ [JS.substring cursorPos index text;
                                 toExprContent e tt])
                end
          end
      end
  end.

Definition renderText (step : Step) : result string :=
  match renderLoop (text step) (stepExpressions step)
                   (matchAll (text step)) 0 [] with
  | Ok (parts, cursorPos) =>
      Ok (JS.join (parts ++ [JS.substring_from cursorPos (text step)]))
  | Throw e => Throw e
  end.

(** ** The view components

    What React produces from a component is modelled as the tree of host
    elements and text it expands to; a component whose [render] throws makes
    the whole render throw, components being rendered in document order.
    [styles.x] is recorded as the key [x]; [key] attributes are not part of
    the output. *)

#[warnings="-register-all"] Inductive ReactNode : Type :=
| RNull                                         (* null renders nothing *)
| RText (s : string)                            (* {aString} *)
| RFragment (children : list ReactNode)         (* <>...</> *)
| RElement (tag : string) (className : option string)
           (children : list ReactNode).

(** The text nodes of a rendered tree, in document order. *)
Fixpoint textNodes (n : ReactNode) : list string :=
  match n with
  | RNull => []
  | RText s => [s]
  | RFragment children => flat_map textNodes children
  | RElement _ _ children => flat_map textNodes children
  end.

Definition StepView (step : Step) : result ReactNode :=
  t <- renderText step ;;
  Ok (RElement "li" (Some "step") [RText t]).

Fixpoint BrickView (brick : Brick) : result ReactNode :=
  match brick with
  | mkBrick parent _ _ steps _ =>
      up <- match parent with
            | Some p =>
                x <- BrickOrConnection p ;;
                Ok (RFragment
                      [x; RElement "div" (Some "brickParentConnectionLine") []])
            | None => Ok RNull
            end ;;
      lis <- mapM StepView steps ;;
      Ok (RElement "div" (Some "brickWithParent")
            [up; RElement "div" (Some "brick") [RElement "ul" None lis]])
  end
with BrickConnectionView (brickConnection : BrickConnection)
  : result ReactNode :=
  match brickConnection with
  | mkConnection inputs connectionMethod =>
      ins <- (fix map_inputs (l : list BrickNode) : result (list ReactNode) :=
                match l with
                | [] => Ok []
                | input :: l' =>
                    y <- match input with
                         | IsConnection c => BrickConnectionView c
                         | IsBrick b => BrickView b
                         end ;;
                    ys <- map_inputs l' ;;
                    Ok (y :: ys)
                end) inputs ;;
      Ok (RElement "div" (Some "brickConnection")
            [RElement "div" (Some "brickConnectionInputs") ins;
             RText connectionMethod])
  end
with BrickOrConnection (input : BrickNode) : result ReactNode :=
  match input with
  | IsConnection c => BrickConnectionView c
  | IsBrick b => BrickView b
  end.

(** [RecipeView]. *)
Record Recipe : Type := mkRecipe {
  recipe_title : string;
  recipe_description : option string;
  recipe_author : option string;
  tail : Brick
}.

Definition RecipeView (recipe : Recipe) : result ReactNode :=
  b <- BrickView (tail recipe) ;;
  Ok (RElement "div" None [b]).

(** ** A structural description of [renderText]

    [renderFrom exprs prev pos s] renders the text [s] that starts at offset
    [pos] of a step text, [prev] being the character before it: a placeholder
    at the head of [s] is checked and substituted, any other character is
    copied.  [renderText_renderFrom] below shows that the cursor loop of
    [renderText] computes [renderFrom exprs None 0]. *)

Definition lookup (exprs : list Expression) (d : ascii) : option Expression :=
  match JS.digit_of d with
  | Some v => nth_error exprs (Z.to_nat v)
  | None => None
  end.

Fixpoint renderFrom (exprs : list Expression) (prev : option ascii)
  (pos : nat) (s : string) : result string :=
  match s with
  | EmptyString => Ok EmptyString
  | String c rest =>
      match rest with
      | String d rest' =>
          if lookbehind_ok prev && is_dollar c && JS.is_digit d
          then
            if (pos =? 0)%nat then Throw MalformedPlaceholderError
            else
              match lookup exprs d with
              | None => Throw OutOfBoundsReferenceError
              | Some e =>
                  out <- renderFrom exprs (Some d) (S (S pos)) rest' ;;
                  Ok (toExprContent e tt ++ out)%string
              end
          else
            out <- renderFrom exprs (Some c) (S pos) rest ;;
            Ok (String c out)
      | EmptyString => Ok (String c EmptyString)
      end
  end.

(** Positional predicates on texts, all computable. *)

Definition no_placeholder (s : string) : bool :=
  forallb (fun p => negb (placeholder_at s p)) (seq 0 (String.length s)).

Definition starts_with_digit (s : string) : bool :=
  match s with
  | String d _ => JS.is_digit d
  | EmptyString => false
  end.

Fixpoint all_digits (s : string) : bool :=
  match s with
  | String d rest => JS.is_digit d && all_digits rest
  | EmptyString => true
  end.

Fixpoint last_char (s : string) : option ascii :=
  match s with
  | EmptyString => None
  | String c EmptyString => Some c
  | String _ rest => last_char rest
  end.

(** The character before the offset reached after reading [s], when [prev]
    was the character before [s]. *)
Definition last_char_or (prev : option ascii) (s : string) : option ascii :=
  match last_char s with
  | Some c => Some c
  | None => prev
  end.

Definition ends_with_dollar (s : string) : bool :=
  match last_char s with
  | Some c => is_dollar c
  | None => false
  end.

Fixpoint skip (n : nat) (s : string) : string :=
  match n, s with
  | O, _ => s
  | S n', String _ rest => skip n' rest
  | S _, EmptyString => EmptyString
  end.

Fixpoint take (m : nat) (s : string) : string :=
  match m, s with
  | S m', String c rest => String c (take m' rest)
  | _, _ => EmptyString
  end.

(** What [renderText] does with the state the loop ends in. *)
Definition finish (text : string) (r : result (list string * nat))
  : result string :=
  match r with
  | Ok (parts, cursorPos) =>
      Ok (JS.join (parts ++ [JS.substring_from cursorPos text]))
  | Throw e => Throw e
  end.

(** ** Sample data

    The ingredients of the recipe in [create.tsx], and a row of eleven
    one-letter expressions. *)

Definition butter : Expression :=
  ingr_expression (ingr "uuid-butter" "unsalted butter" None).
Definition flour : Expression :=
  ingr_expression (ingr "uuid-flour" "all-purpose flour" None).

Definition letter (s : string) : Expression := mkExpression (fun _ => s).
Definition letters : list Expression :=
  map letter ["a"; "b"; "c"; "d"; "e"; "f"; "g"; "h"; "i"; "j"; "k"]%string.

Definition brownButterBrick : Brick :=
  brick (fun t => t) "uuid-bbb" None
        [step "uuid-s1" "Cook $0 in a saucepan." [butter] None] None None.
Definition dryIngredientsBrick : Brick :=
  brick (fun t => t) "uuid-dib" None
        [step "uuid-s2" "Whisk $0 in a medium bowl." [flour] None] None None.

(** ** Outcome of [renderText], read off the text

    [placeholder_ok exprs text p]: if the expression matches at offset [p],
    then [p] is not 0 (the [!index] test) and the digit behind the dollar
    sign is the index of an expression (the bounds test). *)

Definition in_bounds_at (exprs : list Expression) (text : string) (p : nat)
  : bool :=
  match String.get (S p) text with
  | Some d => match lookup exprs d with Some _ => true | None => false end
  | None => false
  end.

Definition placeholder_ok (exprs : list Expression) (text : string) (p : nat)
  : bool :=
  negb (placeholder_at text p)
  || (negb (p =? 0)%nat && in_bounds_at exprs text p).

Definition renderable (step : Step) : bool :=
  forallb (placeholder_ok (stepExpressions step) (text step))
          (seq 0 (String.length (text step))).

(** ** [renderText] on arrays as JavaScript admits them

    The type [Expression[]] promises an object with a [toExprContent] that
    returns a string at every index.  At run time an array may have entries
    that are [undefined] (the holes of [new Array(n)]), and a method may
    throw; [RawStep] admits both, and [renderTextRaw] is the same loop on
    such a step: an [undefined] entry makes
    [stepExpressions[expressionIndex].toExprContent()] a TypeError, an
    exception of [toExprContent] is passed on. *)

Record RawStep : Type := mkRawStep {
  raw_text : string;
  raw_stepExpressions : list (option (unit -> result string))
}.

Fixpoint renderLoopRaw (text : string)
  (stepExpressions : list (option (unit -> result string)))
  (matches : list JS.RegExpMatch) (cursorPos : nat) (parts : list string)
  : result (list string * nat) :=
  match matches with
  | [] => Ok (parts, cursorPos)
  | m :: more =>
      match JS.index m with
      | None | Some O => Throw (Error "missing index in regexp match")
      | Some index =>
          let matchText := JS.matched m in
          match JS.parseInt (JS.substring_from 1 matchText) with
          | None =>
              Throw (TypeError "stepExpressions[expressionIndex] is undefined")
          | Some expressionIndex =>
              if (expressionIndex <? 0)%Z
                 || (expressionIndex >=? Z.of_nat (length stepExpressions))%Z
              then Throw (Error "attempted to reference out-of-bounds ingredient")
              else
                match nth_error stepExpressions (Z.to_nat expressionIndex) with
                | None | Some None =>
                    Throw (TypeError "stepExpressions[expressionIndex] is undefined")
                | Some (Some toExprContent) =>
                    match toExprContent tt with
                    | Throw e => Throw e
                    | Ok content =>
                        renderLoopRaw text stepExpressions more
                          (index + String.length matchText)
                          (parts ++ [JS.substring cursorPos index text;
                                     content])
                    end
                end
          end
      end
  end.

Definition renderTextRaw (step : RawStep) : result string :=
  finish (raw_text step)
         (renderLoopRaw (raw_text step) (raw_stepExpressions step)
                        (matchAll (raw_text step)) 0 []).

(** Is the array as its type says: no entry [undefined], no
    [toExprContent] that throws? *)
Definition well_typed (step : RawStep) : bool :=
  forallb (fun entry =>
             match entry with
             | Some toExprContent =>
                 match toExprContent tt with
                 | Ok _ => true
                 | Throw _ => false
                 end
             | None => false
             end)
          (raw_stepExpressions step).

Definition typed_entry (entry : option (unit -> result string))
  : Expression :=
  mkExpression (fun _ =>
                  match entry with
                  | Some toExprContent =>
                      match toExprContent tt with
                      | Ok content => content
                      | Throw _ => EmptyString
                      end
                  | None => EmptyString
                  end).

(** The [Step] a well-typed raw step is. *)
Definition typed_step (step : RawStep) : Step :=
  mkStep EmptyString (raw_text step)
         (map typed_entry (raw_stepExpressions step)) [].

(** ** The graph in document order

    The steps and the connection labels of a graph in the order in which
    [BrickView] and [BrickConnectionView] lay them out: the parent before the
    own steps, the inputs in array order before the method label. *)

Inductive Item : Type :=
| ItemStep (s : Step)
| ItemLabel (connectionMethod : string).

Definition renderItem (i : Item) : result string :=
  match i with
  | ItemStep s => renderText s
  | ItemLabel m => Ok m
  end.

Fixpoint brickItems (b : Brick) : list Item :=
  match b with
  | mkBrick parent _ _ steps _ =>
      match parent with
      | Some p => nodeItems p
      | None => []
      end ++ map ItemStep steps
  end
with connectionItems (c : BrickConnection) : list Item :=
  match c with
  | mkConnection inputs connectionMethod =>
      (fix inputItems (l : list BrickNode) : list Item :=
         match l with
         | [] => []
         | input :: l' => nodeItems input ++ inputItems l'
         end) inputs ++ [ItemLabel connectionMethod]
  end
with nodeItems (n : BrickNode) : list Item :=
  match n with
  | IsConnection c => connectionItems c
  | IsBrick b => brickItems b
  end.

(** ** Units and amounts *)

Module Units.



End Units.

Section Amounts.

(** JavaScript numbers are kept abstract; [numberToString] stands for the
    conversion a template literal and [value.toString()] apply to them. *)
Variable number : Type.
Variable numberToString : number -> string.




End Amounts.

(** ** [config/webpack.config.ts]: the font links of the page head *)

Module Webpack.

Definition double_quote : ascii := ascii_of_nat 34.
Definition newline : ascii := ascii_of_nat 10.

(** [s.replace(/ /g, '+')]. *)
Fixpoint replace_spaces (s : string) : string :=
  match s with
  | EmptyString => EmptyString
  | String c rest =>
      String (if Ascii.eqb c " " then "+"%char else c) (replace_spaces rest)
  end.

Fixpoint no_space (s : string) : bool :=
  match s with
  | EmptyString => true
  | String c rest => negb (Ascii.eqb c " ") && no_space rest
  end.

Section Fonts.

Variable number : Type.
Variable numberToString : number -> string.

(** [type Font = string | { name: string, weights: number[] }]. *)
Inductive Font : Type :=
| FontName (s : string)
| FontWeights (name : string) (weights : list number).

(** [PageManifest]; the [fallback] record is handed to webpack untouched
    and left out. *)
Record Head : Type := mkHead {
  googleFonts : option (list Font)
}.

Record PageManifest : Type := mkManifest {
  manifest_title : string;
  manifest_description : option string;
  manifest_head : option Head
}.

(** The arrow function of [googleFonts?.map]. *)
Definition fontParam (f : Font) : string :=
  match f with
  | FontName s => ("family=" ++ replace_spaces s)%string
  | FontWeights name weights =>
      ("family=" ++ replace_spaces name ++ ":wght@"
         ++ String.concat ";" (map numberToString weights))%string
  end.

(** [manifest.head?.googleFonts?.map(...).join('&')]; [None] is
    [undefined]. *)
Definition fonts (manifest : PageManifest) : option string :=
  match manifest_head manifest with
  | Some h =>
      match googleFonts h with
      | Some fs => Some (String.concat "&" (map fontParam fs))
      | None => None
      end
  | None => None
  end.

Definition head_template (fonts : string) : string :=
  (String newline
     ("<link rel=" ++ String double_quote ("preconnect"
      ++ String double_quote (" href="
      ++ String double_quote ("https://fonts.gstatic.com"
      ++ String double_quote (">"
      ++ String newline
     ("<link href="
      ++ String double_quote ("https://fonts.googleapis.com/css2?"
      ++ fonts ++ "&display=swap"
      ++ String double_quote (" rel="
      ++ String double_quote ("stylesheet"
      ++ String double_quote (">"
      ++ String newline "")))))))))))%string.

(** [fonts ? `...` : undefined]: [undefined] and the empty string are
    falsy. *)
Definition mergedHead (manifest : PageManifest) : option string :=
  match fonts manifest with
  | Some (String c q) => Some (head_template (String c q))
  | _ => None
  end.

(** The [templateParameters] handed to [HtmlWebpackPlugin]. *)
Record TemplateParameters : Type := mkTemplateParameters {
  tp_title : string;
  tp_description : string;
  tp_head : option string
}.

Definition templateParameters (manifest : PageManifest)
  : TemplateParameters :=
  mkTemplateParameters
    (manifest_title manifest)
    (match manifest_description manifest with
     | Some (String c d) => String c d
     | _ => ""%string
     end)
    (mergedHead manifest).

(** Do the weights of the manifest's fonts print without a space? *)
Definition weights_spaceless (manifest : PageManifest) : bool :=
  match manifest_head manifest with
  | Some h =>
      match googleFonts h with
      | Some fs =>
          forallb (fun f =>
                     match f with
                     | FontName _ => true
                     | FontWeights _ ws =>
                         forallb (fun w => no_space (numberToString w)) ws
                     end) fs
      | None => true
      end
  | None => true
  end.

End Fonts.

(** [export const manifest] of [config/manifest.ts]. *)
Definition manifest : PageManifest nat :=
  mkManifest nat "Brick" (Some "A flexible recipe builder and viewer"%string)
             None.

(** Natural numbers as sample weights, printed in decimal. *)
Definition natToString (n : nat) : string :=
  NilZero.string_of_uint (Nat.to_uint n).

(** A manifest with two fonts, one of them with weights. *)
Definition sample_manifest : PageManifest nat :=
  mkManifest nat "Brick" None
    (Some (mkHead nat
             (Some [FontName nat "Open Sans";
                    FontWeights nat "Roboto Slab" [400; 700]]))).

End Webpack.

(** * Properties *)

(** ** Strings *)

Section StringFacts.

Lemma append_nil_r (s : string) : (s ++ "")%string = s.
Proof. induction s as [|c s IH]; simpl; congruence. Qed.

Lemma append_assoc (a b c : string) :
  ((a ++ b) ++ c)%string = (a ++ (b ++ c))%string.
Proof. induction a as [|x a IH]; simpl; congruence. Qed.

Lemma length_append (a b : string) :
  String.length (a ++ b) = String.length a + String.length b.
Proof. induction a as [|x a IH]; simpl; congruence. Qed.

Lemma append_snoc (a : string) (c : ascii) (b : string) :
  ((a ++ String c "") ++ b)%string = (a ++ String c b)%string.
Proof. rewrite append_assoc. reflexivity. Qed.

Lemma length_snoc (a : string) (c : ascii) :
  String.length (a ++ String c "") = S (String.length a).
Proof. rewrite length_append. simpl. lia. Qed.

(** Induction that peels one or two characters, as [scan] does. *)
Lemma string_ind2 (P : string -> Prop) :
  P ""%string ->
  (forall c, P (String c "")) ->
  (forall c d r, P r -> P (String d r) -> P (String c (String d r))) ->
  forall s, P s.
Proof.
  intros H0 H1 H2 s.
  assert (H : P s /\ forall c, P (String c s)).
  { induction s as [|d r [IHr IHc]].
    - split; [exact H0 | exact H1].
    - split; [apply IHc | intro c; apply H2; [exact IHr | apply IHc]]. }
  apply H.
Qed.

Lemma get_append_at (a : string) (c : ascii) (r : string) :
  String.get (String.length a) (a ++ String c r) = Some c.
Proof. induction a as [|x a IH]; simpl; auto. Qed.

Lemma get_append_next (a : string) (c d : ascii) (r : string) :
  String.get (S (String.length a)) (a ++ String c (String d r)) = Some d.
Proof.
  rewrite <- (append_snoc a c (String d r)), <- (length_snoc a c).
  apply get_append_at.
Qed.

Lemma get_append_end (a : string) (c : ascii) :
  String.get (S (String.length a)) (a ++ String c "") = None.
Proof. induction a as [|x a IH]; simpl; auto. Qed.

Lemma get_prev_append (a b : string) :
  match String.length a with
  | O => None
  | S q => String.get q (a ++ b)
  end = last_char a.
Proof.
  induction a as [|x a IH]; simpl; [reflexivity|].
  destruct a as [|y a]; [reflexivity|].
  simpl in IH |- *. exact IH.
Qed.

Lemma last_char_snoc (a : string) (c : ascii) :
  last_char (a ++ String c "") = Some c.
Proof.
  induction a as [|x a IH]; simpl; [reflexivity|].
  destruct (a ++ String c "")%string eqn:E; [|exact IH].
  destruct a; discriminate.
Qed.

Lemma last_char_nonempty (c : ascii) (s : string) :
  exists x, last_char (String c s) = Some x.
Proof.
  revert c. induction s as [|y s IH]; intro c.
  - exists c. reflexivity.
  - destruct (IH y) as [x Hx]. exists x. exact Hx.
Qed.

Lemma last_char_cons (c : ascii) (s : string) :
  last_char_or (Some c) s = last_char (String c s).
Proof.
  destruct s as [|y s]; [reflexivity|].
  unfold last_char_or. destruct (last_char_nonempty y s) as [x Hx].
  change (last_char (String c (String y s))) with (last_char (String y s)).
  rewrite Hx. reflexivity.
Qed.

Lemma substring_skip_take (n m : nat) (s : string) :
  String.substring n m s = take m (skip n s).
Proof.
  revert n m. induction s as [|c s IH]; intros [|n] [|m]; simpl;
    try reflexivity; try apply IH.
  f_equal. apply (IH 0 m).
Qed.

Lemma take_all (m : nat) (s : string) :
  String.length s <= m -> take m s = s.
Proof.
  revert m. induction s as [|c s IH]; intros [|m] H; simpl in *;
    try reflexivity; try lia.
  f_equal. apply IH. lia.
Qed.

Lemma take_append (a b : string) : take (String.length a) (a ++ b) = a.
Proof. induction a as [|c a IH]; simpl; [destruct b|]; congruence. Qed.

Lemma length_skip (n : nat) (s : string) :
  String.length (skip n s) = String.length s - n.
Proof.
  revert n. induction s as [|c s IH]; intros [|n]; simpl; auto.
Qed.

Lemma skip_append (n : nat) (a b : string) :
  n <= String.length a -> skip n (a ++ b) = (skip n a ++ b)%string.
Proof.
  revert n. induction a as [|c a IH]; intros [|n] H; simpl in *;
    try reflexivity; try lia.
  apply IH. lia.
Qed.

Lemma skip_all (s : string) : skip (String.length s) s = ""%string.
Proof. induction s as [|c s IH]; simpl; auto. Qed.

Lemma substring_from_skip (n : nat) (s : string) :
  JS.substring_from n s = skip n s.
Proof.
  unfold JS.substring_from. rewrite substring_skip_take.
  apply take_all. rewrite length_skip. lia.
Qed.

Lemma substring_prefix (cursor : nat) (done rest : string) :
  cursor <= String.length done ->
  JS.substring cursor (String.length done) (done ++ rest) = skip cursor done.
Proof.
  intro H. unfold JS.substring.
  rewrite Nat.min_l, Nat.max_r by lia.
  rewrite substring_skip_take, skip_append by lia.
  rewrite <- (length_skip cursor done). apply take_append.
Qed.

Lemma join_snoc (parts : list string) (x : string) :
  JS.join (parts ++ [x]) = (JS.join parts ++ x)%string.
Proof.
  unfold JS.join. induction parts as [|p parts IH]; simpl; [reflexivity|].
  destruct parts as [|q parts]; simpl in *.
  - reflexivity.
  - rewrite IH, append_assoc. reflexivity.
Qed.

Lemma join_snoc2 (parts : list string) (x y : string) :
  JS.join (parts ++ [x; y]) = (JS.join parts ++ x ++ y)%string.
Proof.
  change [x; y] with ([x] ++ [y]).
  rewrite app_assoc, !join_snoc, append_assoc. reflexivity.
Qed.

End StringFacts.

(** ** The regular expression scan *)

Section ScanFacts.

Lemma digit_not_dollar (d : ascii) :
  JS.is_digit d = true -> is_dollar d = false.
Proof.
  intro H. destruct (is_dollar d) eqn:E; [|reflexivity].
  apply Ascii.eqb_eq in E. subst d. discriminate H.
Qed.

Lemma dollar_not_digit (c : ascii) :
  is_dollar c = true -> JS.is_digit c = false.
Proof.
  intro H. destruct (JS.is_digit c) eqn:E; [|reflexivity].
  rewrite (digit_not_dollar c E) in H. discriminate H.
Qed.

Lemma scan_cons2 (prev : option ascii) (pos : nat) (c d : ascii) (r : string) :
  scan prev pos (String c (String d r)) =
  if lookbehind_ok prev && is_dollar c && JS.is_digit d
  then JS.mkMatch (Some pos) (String c (String d "")) :: scan (Some d) (S (S pos)) r
  else scan (Some c) (S pos) (String d r).
Proof. reflexivity. Qed.

(** Every match is a dollar sign and exactly one digit. *)
Lemma scan_matched (s : string) :
  forall prev pos m, In m (scan prev pos s) ->
    exists p c d,
      m = JS.mkMatch (Some p) (String c (String d "")) /\ pos <= p /\
      is_dollar c = true /\ JS.is_digit d = true.
Proof.
  induction s as [| c | c d r IHr IHd] using string_ind2; intros prev pos m H.
  - destruct H.
  - destruct H.
  - rewrite scan_cons2 in H.
    destruct (lookbehind_ok prev && is_dollar c && JS.is_digit d) eqn:T.
    + apply andb_prop in T. destruct T as [T Hd].
      apply andb_prop in T. destruct T as [_ Hc].
      destruct H as [H | H].
      * exists pos, c, d. subst m. auto.
      * destruct (IHr _ _ _ H) as (p & c' & d' & -> & Hp & Hc' & Hd').
        exists p, c', d'. repeat split; auto. lia.
    + destruct (IHd _ _ _ H) as (p & c' & d' & -> & Hp & Hc' & Hd').
      exists p, c', d'. repeat split; auto. lia.
Qed.

Lemma placeholder_at_here (done : string) (c : ascii) (rest : string) :
  placeholder_at (done ++ String c rest) (String.length done) =
  lookbehind_ok (last_char done) && is_dollar c && starts_with_digit rest.
Proof.
  unfold placeholder_at.
  rewrite get_prev_append, get_append_at.
  destruct rest as [|d r].
  - rewrite get_append_end. reflexivity.
  - rewrite get_append_next. reflexivity.
Qed.

(** The scan finds exactly the offsets at which the expression matches,
    in increasing order (two matches cannot overlap: the second character
    of one is a digit, the first of the next a dollar sign). *)
Lemma scan_positions (rest : string) :
  forall done,
    map JS.index (scan (last_char done) (String.length done) rest) =
    map Some (filter (placeholder_at (done ++ rest))
                     (seq (String.length done) (String.length rest))).
Proof.
  induction rest as [| c | c d r IHr IHd] using string_ind2; intro done.
  - reflexivity.
  - cbn [scan String.length seq filter].
    rewrite placeholder_at_here. cbn [starts_with_digit].
    rewrite andb_false_r. reflexivity.
  - rewrite scan_cons2.
    cbn [String.length seq filter].
    rewrite placeholder_at_here. cbn [starts_with_digit].
    destruct (lookbehind_ok (last_char done) && is_dollar c && JS.is_digit d)
      eqn:T.
    + assert (Hd : JS.is_digit d = true)
        by (apply andb_prop in T; apply T).
      rewrite <- (append_snoc done c (String d r)).
      rewrite <- (length_snoc done c).
      rewrite placeholder_at_here.
      rewrite (digit_not_dollar d Hd), andb_false_r. cbn [andb].
      specialize (IHr ((done ++ String c "") ++ String d "")%string).
      rewrite last_char_snoc, length_snoc, append_snoc in IHr.
      cbn [map]. rewrite IHr. rewrite length_snoc. reflexivity.
    + specialize (IHd (done ++ String c "")%string).
      rewrite last_char_snoc, length_snoc, append_snoc in IHd.
      exact IHd.
Qed.

Lemma matchAll_positions (text : string) :
  map JS.index (matchAll text) =
  map Some (filter (placeholder_at text) (seq 0 (String.length text))).
Proof. exact (scan_positions text ""%string). Qed.

Lemma matchAll_placeholder_at (text : string) (m : JS.RegExpMatch) :
  In m (matchAll text) ->
  exists p, JS.index m = Some p /\ placeholder_at text p = true.
Proof.
  intro H. apply (in_map JS.index) in H.
  rewrite matchAll_positions in H.
  apply in_map_iff in H. destruct H as (p & Hp & Hin).
  apply filter_In in Hin. exists p. split; [symmetry; exact Hp | apply Hin].
Qed.

Lemma no_placeholder_matchAll (text : string) :
  no_placeholder text = true -> matchAll text = [].
Proof.
  intro H. apply (map_eq_nil JS.index).
  rewrite matchAll_positions.
  replace (filter (placeholder_at text) (seq 0 (String.length text)))
    with (@nil nat); [reflexivity|].
  unfold no_placeholder in H. rewrite forallb_forall in H.
  symmetry.
  induction (seq 0 (String.length text)) as [|p l IH]; [reflexivity|].
  simpl. pose proof (H p (or_introl eq_refl)) as Hp.
  apply negb_true_iff in Hp. rewrite Hp.
  apply IH. intros x Hx. apply H. right. exact Hx.
Qed.

End ScanFacts.

(** ** The cursor loop computes [renderFrom] *)

Section RenderFacts.

Variable exprs : list Expression.

Lemma renderText_unfold (step : Step) :
  renderText step =
  finish (text step)
         (renderLoop (text step) (stepExpressions step)
                     (matchAll (text step)) 0 []).
Proof. reflexivity. Qed.

Lemma renderFrom_cons2 (prev : option ascii) (pos : nat) (c d : ascii)
  (r : string) :
  renderFrom exprs prev pos (String c (String d r)) =
  if lookbehind_ok prev && is_dollar c && JS.is_digit d
  then
    if (pos =? 0)%nat then Throw MalformedPlaceholderError
    else
      match lookup exprs d with
      | None => Throw OutOfBoundsReferenceError
      | Some e =>
          out <- renderFrom exprs (Some d) (S (S pos)) r ;;
          Ok (toExprContent e tt ++ out)%string
      end
  else
    out <- renderFrom exprs (Some c) (S pos) (String d r) ;;
    Ok (String c out).
Proof. reflexivity. Qed.

Lemma digit_of_range (d : ascii) (v : Z) :
  JS.digit_of d = Some v -> (0 <= v <= 9)%Z.
Proof.
  unfold JS.digit_of.
  destruct ((48 <=? nat_of_ascii d)%nat && (nat_of_ascii d <=? 57)%nat) eqn:E;
    [|discriminate].
  apply andb_prop in E. destruct E as [E1 E2].
  apply Nat.leb_le in E1. apply Nat.leb_le in E2.
  intro H. injection H as <-. lia.
Qed.

(** What [parseInt(matchText.substring(1))] is on a match of the scan. *)
Lemma parseInt_match (c d : ascii) :
  JS.parseInt (JS.substring_from 1 (String c (String d ""))) = JS.digit_of d.
Proof.
  change (JS.substring_from 1 (String c (String d ""))) with (String d "").
  unfold JS.parseInt. cbn [JS.parse_digits].
  destruct (JS.digit_of d) as [v|]; reflexivity.
Qed.

(** The bounds test of the loop agrees with the array access. *)
Lemma bounds_lookup (d : ascii) (v : Z) :
  JS.digit_of d = Some v ->
  ((v <? 0)%Z || (v >=? Z.of_nat (length exprs))%Z = true
   /\ lookup exprs d = None)
  \/ ((v <? 0)%Z || (v >=? Z.of_nat (length exprs))%Z = false
      /\ exists e, nth_error exprs (Z.to_nat v) = Some e
                   /\ lookup exprs d = Some e).
Proof.
  intro H. pose proof (digit_of_range d v H) as R.
  unfold lookup. rewrite H.
  destruct (nth_error exprs (Z.to_nat v)) as [e|] eqn:N.
  - right. split; [|exists e; auto].
    assert (Z.to_nat v < length exprs)
      by (apply nth_error_Some; congruence).
    apply orb_false_iff. split; [apply Z.ltb_ge; lia|].
    rewrite Z.geb_leb. apply Z.leb_gt. lia.
  - left. split; [|reflexivity].
    apply nth_error_None in N.
    apply orb_true_iff. right. rewrite Z.geb_leb. apply Z.leb_le. lia.
Qed.

Lemma renderLoop_scan (rest : string) :
  forall done cursor parts,
    cursor <= String.length done ->
    finish (done ++ rest)
           (renderLoop (done ++ rest) exprs
              (scan (last_char done) (String.length done) rest) cursor parts)
    = out <- renderFrom exprs (last_char done) (String.length done) rest ;;
      Ok (JS.join parts ++ skip cursor done ++ out)%string.
Proof.
  induction rest as [| c | c d r IHr IHd] using string_ind2;
    intros done cursor parts Hc.
  - cbn [scan renderLoop finish renderFrom bind].
    rewrite join_snoc, substring_from_skip, !append_nil_r. reflexivity.
  - cbn [scan renderLoop finish renderFrom bind].
    rewrite join_snoc, substring_from_skip, skip_append by exact Hc.
    reflexivity.
  - rewrite scan_cons2, renderFrom_cons2.
    destruct (lookbehind_ok (last_char done) && is_dollar c && JS.is_digit d)
      eqn:T.
    + assert (Hd : JS.is_digit d = true)
        by (apply andb_prop in T; apply T).
      cbn [renderLoop JS.index JS.matched].
      destruct (String.length done) as [|n] eqn:L; [reflexivity|].
      cbn [Nat.eqb]. rewrite parseInt_match.
      unfold JS.is_digit in Hd.
      destruct (JS.digit_of d) as [v|] eqn:Dv; [|discriminate].
      destruct (bounds_lookup d v Dv) as [[B Lk] | [B (e & N & Lk)]];
        rewrite B, Lk; [reflexivity|].
      rewrite N.
      specialize (IHr ((done ++ String c "") ++ String d "")%string
                      (S n + String.length (String c (String d "")))
                      (parts ++ [JS.substring cursor (S n)
                                   (done ++ String c (String d r));
                                 toExprContent e tt])).
      rewrite last_char_snoc, !length_snoc, !append_snoc, L in IHr.
      cbn [String.length] in IHr |- *.
      replace (S n + 2) with (S (S (S n))) in IHr |- * by lia.
      rewrite IHr by lia.
      rewrite join_snoc2.
      assert (Hlen : String.length (done ++ String c (String d ""))
                     = S (S (S n)))
        by (rewrite length_append, L; simpl; lia).
      replace (skip (S (S (S n))) (done ++ String c (String d "")))
        with ""%string
        by (rewrite <- Hlen; symmetry; apply skip_all).
      rewrite <- L in Hc |- *. rewrite substring_prefix by exact Hc.
      clear IHr IHd.
      destruct (renderFrom exprs (Some d) _ r) as [out|x];
        cbn [bind]; [|reflexivity].
      cbn [append]. rewrite !append_assoc. reflexivity.
    + specialize (IHd (done ++ String c "")%string cursor parts).
      rewrite last_char_snoc, length_snoc, append_snoc in IHd.
      rewrite IHd by lia.
      destruct (renderFrom exprs (Some c) (S (String.length done))
                  (String d r)) as [out|x]; cbn [bind]; [|reflexivity].
      rewrite skip_append by exact Hc.
      rewrite !append_assoc. reflexivity.
Qed.

End RenderFacts.

(** [renderText] is [renderFrom] started at offset 0. *)
Lemma renderText_renderFrom (step : Step) :
  renderText step = renderFrom (stepExpressions step) None 0 (text step).
Proof.
  rewrite renderText_unfold.
  pose proof (renderLoop_scan (stepExpressions step) (text step)
                ""%string 0 [] (Nat.le_refl 0)) as H.
  cbn [append last_char String.length] in H.
  unfold matchAll. rewrite H.
  destruct (renderFrom (stepExpressions step) None 0 (text step));
    reflexivity.
Qed.

(** ** Rendering a text piece by piece *)

Section Compositional.

Variable exprs : list Expression.

Lemma bind_ret_r {A : Type} (m : result A) : (x <- m ;; Ok x) = m.
Proof. destruct m; reflexivity. Qed.

Lemma bind_assoc {A B C : Type} (m : result A) (f : A -> result B)
  (g : B -> result C) :
  (y <- (x <- m ;; f x) ;; g y) = (x <- m ;; y <- f x ;; g y).
Proof. destruct m; reflexivity. Qed.

Lemma last_char_or_cons (prev : option ascii) (c : ascii) (s : string) :
  last_char_or prev (String c s) = last_char_or (Some c) s.
Proof.
  rewrite last_char_cons. unfold last_char_or.
  destruct (last_char_nonempty c s) as [x ->]. reflexivity.
Qed.

Lemma ends_with_dollar_cons (c : ascii) (s : string) :
  ends_with_dollar s = true -> ends_with_dollar (String c s) = true.
Proof.
  unfold ends_with_dollar. destruct s as [|y s]; [discriminate|].
  intro H. exact H.
Qed.

(** A text [a ++ b] renders as [a] followed by [b], unless the seam would
    cut a placeholder in two. *)
Lemma renderFrom_app (a : string) :
  forall prev pos b,
    ends_with_dollar a && starts_with_digit b = false ->
    renderFrom exprs prev pos (a ++ b) =
    o1 <- renderFrom exprs prev pos a ;;
    o2 <- renderFrom exprs (last_char_or prev a) (pos + String.length a) b ;;
    Ok (o1 ++ o2)%string.
Proof.
  induction a as [| c | c d r IHr IHd] using string_ind2;
    intros prev pos b H.
  - cbn [append renderFrom bind String.length]. unfold last_char_or.
    cbn [last_char]. rewrite Nat.add_0_r.
    symmetry. apply bind_ret_r.
  - cbn [append]. destruct b as [|d b'].
    + reflexivity.
    + rewrite renderFrom_cons2.
      unfold ends_with_dollar in H. cbn [last_char starts_with_digit] in H.
      rewrite <- andb_assoc, H, andb_false_r.
      cbn [renderFrom bind String.length].
      unfold last_char_or. cbn [last_char].
      replace (pos + 1) with (S pos) by lia.
      destruct (renderFrom exprs (Some c) (S pos) (String d b'));
        reflexivity.
  - cbn [append]. rewrite !renderFrom_cons2.
    rewrite !last_char_or_cons.
    destruct (lookbehind_ok prev && is_dollar c && JS.is_digit d) eqn:T.
    + destruct (pos =? 0)%nat; [reflexivity|].
      destruct (lookup exprs d) as [e|]; [|reflexivity].
      rewrite IHr.
      2:{ destruct (ends_with_dollar r) eqn:E; [|reflexivity].
          rewrite (ends_with_dollar_cons c _ (ends_with_dollar_cons d _ E))
            in H. exact H. }
      cbn [String.length].
      replace (pos + S (S (String.length r)))
        with (S (S pos) + String.length r) by lia.
      rewrite !bind_assoc.
      destruct (renderFrom exprs (Some d) (S (S pos)) r) as [o1|x];
        cbn [bind]; [|reflexivity].
      destruct (renderFrom exprs (last_char_or (Some d) r)
                  (S (S pos) + String.length r) b) as [o2|x];
        cbn [bind]; [|reflexivity].
      rewrite append_assoc. reflexivity.
    + change (String d (r ++ b)%string) with (String d r ++ b)%string.
      rewrite IHd by exact H.
      rewrite !last_char_or_cons.
      cbn [String.length].
      replace (pos + S (S (String.length r)))
        with (S pos + S (String.length r)) by lia.
      rewrite !bind_assoc.
      destruct (renderFrom exprs (Some c) (S pos) (String d r)) as [o1|x];
        cbn [bind]; [|reflexivity].
      destruct (renderFrom exprs (last_char_or (Some d) r)
                  (S pos + S (String.length r)) b) as [o2|x];
        reflexivity.
Qed.

(** Text without a dollar sign is copied; in particular a run of digits. *)
Lemma renderFrom_digits (s : string) :
  forall prev pos, all_digits s = true -> renderFrom exprs prev pos s = Ok s.
Proof.
  induction s as [| c | c d r IHr IHd] using string_ind2;
    intros prev pos H.
  - reflexivity.
  - reflexivity.
  - rewrite renderFrom_cons2.
    cbn [all_digits] in H. apply andb_prop in H. destruct H as [Hc H].
    rewrite (digit_not_dollar c Hc), andb_false_r. cbn [andb].
    rewrite IHd by exact H. reflexivity.
Qed.

Lemma all_digits_last (s : string) :
  all_digits s = true -> ends_with_dollar s = false.
Proof.
  unfold ends_with_dollar.
  induction s as [|c s IH]; intro H; [reflexivity|].
  cbn [all_digits] in H. apply andb_prop in H. destruct H as [Hc H].
  destruct s as [|y s].
  - cbn [last_char]. apply digit_not_dollar. exact Hc.
  - apply IH. exact H.
Qed.

Lemma renderText_app (id : string) (tools : list Tool) (a b : string) :
  ends_with_dollar a && starts_with_digit b = false ->
  renderText (mkStep id (a ++ b) exprs tools) =
  o1 <- renderText (mkStep id a exprs tools) ;;
  o2 <- renderFrom exprs (last_char a) (String.length a) b ;;
  Ok (o1 ++ o2)%string.
Proof.
  intro H. rewrite !renderText_renderFrom. cbn [text stepExpressions].
  rewrite renderFrom_app by exact H.
  unfold last_char_or. cbn [Nat.add].
  destruct (last_char a); reflexivity.
Qed.


(** A placeholder at offset 0 always trips the [!index] test. *)
Lemma renderText_offset_0 (id : string) (tools : list Tool)
  (d : ascii) (post : string) :
  JS.is_digit d = true ->
  renderText (mkStep id (String dollar (String d post)) exprs tools) =
  Throw MalformedPlaceholderError.
Proof.
  intro Hd. rewrite renderText_renderFrom. cbn [text stepExpressions].
  rewrite renderFrom_cons2, Hd. reflexivity.
Qed.

(** Behind offset 0 the offset itself does not matter, and of the character
    before the piece only whether it is a backslash. *)
Lemma renderFrom_shift (s : string) :
  forall prev prev' pos pos',
    lookbehind_ok prev = lookbehind_ok prev' ->
    (pos =? 0)%nat = (pos' =? 0)%nat ->
    renderFrom exprs prev pos s = renderFrom exprs prev' pos' s.
Proof.
  induction s as [| c | c d r IHr IHd] using string_ind2;
    intros prev prev' pos pos' Hl Hp.
  - reflexivity.
  - reflexivity.
  - rewrite !renderFrom_cons2, Hl, Hp.
    rewrite (IHr (Some d) (Some d) (S (S pos)) (S (S pos')) eq_refl eq_refl).
    rewrite (IHd (Some c) (Some c) (S pos) (S pos') eq_refl eq_refl).
    reflexivity.
Qed.

Lemma renderFrom_not_malformed (s : string) :
  forall prev pos,
    pos <> 0 -> renderFrom exprs prev pos s <> Throw MalformedPlaceholderError.
Proof.
  induction s as [| c | c d r IHr IHd] using string_ind2;
    intros prev pos Hp.
  - discriminate.
  - discriminate.
  - rewrite renderFrom_cons2.
    destruct (lookbehind_ok prev && is_dollar c && JS.is_digit d).
    + destruct (Nat.eqb_spec pos 0) as [E|_]; [contradiction|].
      destruct (lookup exprs d) as [e|]; [|discriminate].
      specialize (IHr (Some d) (S (S pos)) (Nat.neq_succ_0 _)).
      destruct (renderFrom exprs (Some d) (S (S pos)) r);
        cbn [bind]; [discriminate | exact IHr].
    + specialize (IHd (Some c) (S pos) (Nat.neq_succ_0 _)).
      destruct (renderFrom exprs (Some c) (S pos) (String d r));
        cbn [bind]; [discriminate | exact IHd].
Qed.

(** 'missing index in regexp match' is thrown exactly when the text starts
    with a placeholder token. *)
Lemma renderText_malformed_iff (id : string) (tools : list Tool)
  (t : string) :
  renderText (mkStep id t exprs tools) = Throw MalformedPlaceholderError
  <-> placeholder_at t 0 = true.
Proof.
  rewrite renderText_renderFrom. cbn [text stepExpressions].
  destruct t as [|c [|d r]].
  - split; discriminate.
  - split; [discriminate|].
    unfold placeholder_at. cbn. rewrite andb_false_r. discriminate.
  - rewrite renderFrom_cons2.
    change (placeholder_at (String c (String d r)) 0)
      with (lookbehind_ok None && is_dollar c && JS.is_digit d).
    destruct (lookbehind_ok None && is_dollar c && JS.is_digit d).
    + split; reflexivity.
    + split; [|discriminate].
      intro H. exfalso.
      pose proof (renderFrom_not_malformed (String d r) (Some c) 1
                    (Nat.neq_succ_0 0)) as N.
      destruct (renderFrom exprs (Some c) 1 (String d r));
        cbn [bind] in H; [discriminate | contradiction].
Qed.

(** A piece in which the scan finds no token is copied. *)
Lemma renderFrom_scan_nil (s : string) :
  forall prev pos, scan prev pos s = [] -> renderFrom exprs prev pos s = Ok s.
Proof.
  induction s as [| c | c d r IHr IHd] using string_ind2;
    intros prev pos H.
  - reflexivity.
  - reflexivity.
  - rewrite scan_cons2 in H. rewrite renderFrom_cons2.
    destruct (lookbehind_ok prev && is_dollar c && JS.is_digit d);
      [discriminate H|].
    rewrite (IHd _ _ H). reflexivity.
Qed.

Lemma scan_nil_shift (s : string) :
  forall prev prev' pos pos',
    lookbehind_ok prev = lookbehind_ok prev' ->
    scan prev pos s = [] -> scan prev' pos' s = [].
Proof.
  induction s as [| c | c d r IHr IHd] using string_ind2;
    intros prev prev' pos pos' Hl H.
  - reflexivity.
  - reflexivity.
  - rewrite scan_cons2 in H |- *. rewrite <- Hl.
    destruct (lookbehind_ok prev && is_dollar c && JS.is_digit d);
      [discriminate H|].
    apply (IHd (Some c) (Some c) (S pos) (S pos') eq_refl H).
Qed.

End Compositional.

(** ** The view components *)

Section ViewFacts.

(** The arrow function of [inputs.map] in [BrickConnectionView] is
    [BrickOrConnection]. *)
Lemma BrickConnectionView_unfold (inputs : list BrickNode)
  (connectionMethod : string) :
  BrickConnectionView (mkConnection inputs connectionMethod) =
  ins <- mapM BrickOrConnection inputs ;;
  Ok (RElement "div" (Some "brickConnection")
        [RElement "div" (Some "brickConnectionInputs") ins;
         RText connectionMethod]).
Proof.
  cbn [BrickConnectionView]. f_equal.
  induction inputs as [|i l IH]; [reflexivity|].
  cbn [mapM]. rewrite <- IH. destruct i; reflexivity.
Qed.

Lemma textNodes_steps (steps : list Step) :
  fmap (flat_map textNodes) (mapM StepView steps) = mapM renderText steps.
Proof.
  unfold fmap. induction steps as [|s l IH]; [reflexivity|].
  cbn [mapM]. unfold StepView at 1.
  destruct (renderText s) as [t|e]; cbn [bind]; [|reflexivity].
  rewrite <- IH.
  destruct (mapM StepView l) as [lis|e]; reflexivity.
Qed.

Lemma textNodes_inputs (inputs : list BrickNode) :
  fmap (flat_map textNodes) (mapM BrickOrConnection inputs) =
  fmap (@concat string)
       (mapM (fun i => fmap textNodes (BrickOrConnection i)) inputs).
Proof.
  unfold fmap. induction inputs as [|i l IH]; [reflexivity|].
  cbn [mapM].
  destruct (BrickOrConnection i) as [x|e]; cbn [bind]; [|reflexivity].
  destruct (mapM BrickOrConnection l) as [xs|e];
    destruct (mapM (fun i0 => x0 <- BrickOrConnection i0 ;; Ok (textNodes x0)) l)
      as [ys|e']; cbn [bind] in IH |- *; try discriminate.
  - injection IH as IH. cbn [flat_map concat]. rewrite IH. reflexivity.
  - exact IH.
Qed.

(** [mapM] visits every element, in order: a result is the list of the
    results, element by element, and an exception is that of the first
    element that throws. *)
Lemma mapM_Forall2 {A B : Type} (f : A -> result B) (xs : list A)
  (ys : list B) :
  mapM f xs = Ok ys -> Forall2 (fun x y => f x = Ok y) xs ys.
Proof.
  revert ys. induction xs as [|x xs IH]; intros ys H; cbn [mapM] in H.
  - injection H as <-. constructor.
  - destruct (f x) as [y|e] eqn:Fx; cbn [bind] in H; [|discriminate].
    destruct (mapM f xs) as [zs|e]; cbn [bind] in H; [|discriminate].
    injection H as <-. constructor; [exact Fx | apply IH; reflexivity].
Qed.

Lemma mapM_Throw {A B : Type} (f : A -> result B) (xs : list A) (e : exn) :
  mapM f xs = Throw e ->
  exists done x rest,
    xs = done ++ x :: rest
    /\ Forall (fun x' => exists y, f x' = Ok y) done
    /\ f x = Throw e.
Proof.
  induction xs as [|x xs IH]; intro H; cbn [mapM] in H; [discriminate|].
  destruct (f x) as [y|e'] eqn:Fx; cbn [bind] in H.
  - destruct (mapM f xs) as [zs|e'']; cbn [bind] in H; [discriminate|].
    injection H as ->.
    destruct (IH eq_refl) as (done & x' & rest & -> & Hd & Hx).
    exists (x :: done), x', rest. repeat split.
    + constructor; [exists y; exact Fx | exact Hd].
    + exact Hx.
  - injection H as ->. exists [], x, xs. repeat split; [constructor | exact Fx].
Qed.

End ViewFacts.

(** * The claims of the specification *)

(** ** Templating engine *)

(** C1 (fails on the code). A placeholder whose index is valid is replaced by
    the expression's content, also at character offset 0 of the text: on
    ["$0 and salt"] with one expression the scan finds the token at offset 0
    and the index 0 is in bounds, yet [renderText] throws
    'missing index in regexp match' instead of returning
    ["unsalted butter and salt"], because [!index] is true for offset 0. *)
Theorem renderText_offset_0_throws :
  let s := step "uuid-1" "$0 and salt" [butter] None in
  matchAll (text s) = [JS.mkMatch (Some 0) "$0"]
  /\ (exists e, lookup (stepExpressions s) "0" = Some e
                /\ toExprContent e tt = "unsalted butter"%string)
  /\ renderText s = Throw MalformedPlaceholderError
  /\ renderText s <> Ok "unsalted butter and salt"%string.
Proof.
  cbv zeta. split; [reflexivity|]. split.
  - exists butter. split; reflexivity.
  - split; [reflexivity | discriminate].
Qed.

(** C2 (fails on the code). All the digits behind an unescaped dollar sign
    form the index: on ["Add $10"] with eleven expressions the lazy [\d+?]
    matches ["$1"] only, so that expression 1 is substituted and the ["0"] is
    emitted as literal text, where the claim has expression 10. *)
Theorem renderText_two_digit_index :
  let s := step "uuid-2" "Add $10" letters None in
  matchAll (text s) = [JS.mkMatch (Some 4) "$1"]
  /\ length (stepExpressions s) = 11
  /\ renderText s = Ok "Add b0"%string
  /\ renderText s <> Ok "Add k"%string.
Proof.
  cbv zeta. repeat split; try reflexivity. discriminate.
Qed.

(** C3 (fails on the code). 'missing index in regexp match' is not raised
    when every detected token has a parseable index: on ["$1 of 2"] the only
    token is ["$1"], its digits parse to 1, which is in bounds, and the error
    is raised all the same, the token being at offset 0. *)
Theorem renderText_malformed_on_parseable_index :
  let s := step "uuid-3" "$1 of 2" [butter; flour] None in
  (exists m, matchAll (text s) = [m]
             /\ JS.parseInt (JS.substring_from 1 (JS.matched m)) = Some 1%Z
             /\ (1 < Z.of_nat (length (stepExpressions s)))%Z)
  /\ renderText s = Throw MalformedPlaceholderError.
Proof.
  cbv zeta. split; [|reflexivity].
  exists (JS.mkMatch (Some 0) "$1"). repeat split.
Qed.

(** C5 (fails on the code). An unescaped placeholder whose index is not below
    the number of expressions makes the render fail with the out-of-bounds
    error.  ["Add $5"] with two expressions does; but ["$5"] with two
    expressions fails with 'missing index in regexp match' (the token is at
    offset 0), and ["Add $12"] with two expressions does not fail at all
    (the index read is 1). *)
Theorem renderText_out_of_bounds_cases :
  renderText (step "uuid-4" "Add $5" [butter; flour] None)
    = Throw OutOfBoundsReferenceError
  /\ renderText (step "uuid-5" "$5" [butter; flour] None)
     = Throw MalformedPlaceholderError
  /\ MalformedPlaceholderError <> OutOfBoundsReferenceError
  /\ renderText (step "uuid-6" "Add $12" [butter; flour] None)
     = Ok "Add all-purpose flour2"%string.
Proof.
  repeat split; try reflexivity. discriminate.
Qed.

(** C6. A dollar sign preceded by a backslash is no placeholder, whatever
    digits follow it: no match of the scan starts at it, and the text
    [pre \$digits post] renders as the render of [pre], then the backslash,
    the dollar sign and the digits unchanged, then the render of [post]
    (from its offset on).  In particular neither a substitution nor an
    exception comes from the escaped token. *)
Theorem renderText_escaped_placeholder (id : string) (exprs : list Expression)
  (tools : list Tool) (pre : string) (d : ascii) (ds post : string) :
  all_digits (String d ds) = true ->
  (forall m,
      In m (matchAll (pre ++ String backslash
                              (String dollar (String d ds ++ post))) ) ->
      JS.index m <> Some (S (String.length pre)))
  /\ renderText
       (mkStep id
          (pre ++ String backslash (String dollar (String d ds ++ post)))
          exprs tools) =
     o1 <- renderText (mkStep id pre exprs tools) ;;
     o2 <- renderFrom exprs (last_char (String d ds))
             (String.length pre + 2 + String.length (String d ds)) post ;;
     Ok (o1 ++ String backslash (String dollar (String d ds)) ++ o2)%string.
Proof.
  intro Hd. split.
  - intros m Hin Hidx.
    destruct (matchAll_placeholder_at _ _ Hin) as (p & Hp & Hat).
    rewrite Hidx in Hp. injection Hp as <-.
    unfold placeholder_at in Hat. rewrite get_append_at in Hat.
    discriminate Hat.
  - rewrite renderText_app by (apply andb_false_iff; right; reflexivity).
    rewrite renderFrom_cons2.
    change (is_dollar backslash) with false. rewrite andb_false_r.
    cbn [andb].
    change (String d ds ++ post)%string with (String d (ds ++ post)).
    rewrite renderFrom_cons2. cbn [lookbehind_ok].
    change (negb (is_backslash backslash)) with false. cbn [andb].
    change (String d (ds ++ post)) with (String d ds ++ post)%string.
    rewrite (renderFrom_app exprs (String d ds))
      by (rewrite (all_digits_last _ Hd); reflexivity).
    rewrite (renderFrom_digits exprs _ _ _ Hd).
    rewrite last_char_or_cons, last_char_cons.
    replace (S (S (String.length pre)) + String.length (String d ds))
      with (String.length pre + 2 + String.length (String d ds)) by lia.
    destruct (renderText (mkStep id pre exprs tools)) as [o1|e1];
      cbn [bind]; [|reflexivity].
    destruct (renderFrom exprs (last_char (String d ds))
                (String.length pre + 2 + String.length (String d ds)) post)
      as [o2|e2]; cbn [bind]; reflexivity.
Qed.

Lemma renderText_escaped_placeholder_witness :
  all_digits "10" = true
  /\ renderText (mkStep "uuid-7" "Pay \$10 for $0" [butter] [])
     = Ok "Pay \$10 for unsalted butter"%string.
Proof.
  split; [reflexivity|].
  exact (proj2 (renderText_escaped_placeholder
                  "uuid-7" [butter] [] "Pay " "1" "0" " for $0" eq_refl)).
Defined.

(** C7. A step whose text has no unescaped placeholder token (no offset at
    which a dollar sign that is not preceded by a backslash is followed by a
    digit) renders to its text, unchanged. *)
Theorem renderText_identity (step : Step) :
  no_placeholder (text step) = true ->
  renderText step = Ok (text step).
Proof.
  intro H. rewrite renderText_unfold, (no_placeholder_matchAll _ H).
  cbn [renderLoop finish app]. rewrite substring_from_skip. reflexivity.
Qed.

Lemma renderText_identity_witness :
  renderText (step "uuid-8" "Bake 9-11 minutes; \$5 a dozen, 100$ a batch."
                   [] None)
  = Ok "Bake 9-11 minutes; \$5 a dozen, 100$ a batch."%string.
Proof.
  apply (renderText_identity
           (step "uuid-8" "Bake 9-11 minutes; \$5 a dozen, 100$ a batch."
                 [] None)).
  reflexivity.
Defined.

(** C10 (corrected): the claim against the code.  A text with a dollar sign
    that is not followed by a digit can still fail to render, and the
    characters behind such a dollar sign are not all emitted literally: in
    ["Costs $, add $7"] the dollar sign at offset 6 is followed by a comma,
    and the render throws the out-of-bounds error for the token behind it;
    in ["a$$0"] the dollar sign at offset 1 is followed by a dollar sign, and
    the two characters behind it are replaced by the expression. *)
Lemma renderText_lone_dollar_can_throw :
  (let s := step "uuid-12" "Costs $, add $7" [butter] None in
   String.get 6 (text s) = Some dollar
   /\ starts_with_digit (JS.substring_from 7 (text s)) = false
   /\ renderText s = Throw OutOfBoundsReferenceError
   /\ ~ (exists out, renderText s = Ok out))
  /\ (let s := step "uuid-13" "a$$0" [butter] None in
      String.get 1 (text s) = Some dollar
      /\ starts_with_digit (JS.substring_from 2 (text s)) = false
      /\ renderText s = Ok "a$unsalted butter"%string
      /\ renderText s <> Ok (text s)).
Proof.
  cbv zeta. repeat split; try reflexivity.
  - intros [out H]. discriminate H.
  - discriminate.
Qed.

(** C10 (as amended).  A dollar sign that is not followed by a digit (the
    last character of the text included) is no placeholder token: no match
    of the scan starts at it, and the text [pre $ post] renders as the
    render of [pre], then the dollar sign itself, then the render of [post]
    (from its offset on), in which tokens are still substituted.  So the
    dollar sign is copied, and the render fails only through a token
    elsewhere in the text: when [pre] renders and [post] has no token, the
    render does not fail and is the render of [pre], the dollar sign and
    [post] unchanged. *)
Theorem renderText_lone_dollar (id : string) (exprs : list Expression)
  (tools : list Tool) (pre post : string) :
  starts_with_digit post = false ->
  (forall m, In m (matchAll (pre ++ String dollar post)) ->
             JS.index m <> Some (String.length pre))
  /\ renderText (mkStep id (pre ++ String dollar post) exprs tools) =
     o1 <- renderText (mkStep id pre exprs tools) ;;
     o2 <- renderFrom exprs (Some dollar) (S (String.length pre)) post ;;
     Ok (o1 ++ String dollar o2)%string
  /\ renderText (mkStep id (pre ++ String dollar "") exprs tools) =
     o1 <- renderText (mkStep id pre exprs tools) ;;
     Ok (o1 ++ String dollar "")%string
  /\ (forall o1,
         renderText (mkStep id pre exprs tools) = Ok o1 ->
         no_placeholder post = true ->
         renderText (mkStep id (pre ++ String dollar post) exprs tools)
         = Ok (o1 ++ String dollar post)%string).
Proof.
  intro Hp.
  assert (Hb : forall b, ends_with_dollar pre
                         && starts_with_digit (String dollar b) = false)
    by (intro b; apply andb_false_iff; right; reflexivity).
  assert (E : renderText (mkStep id (pre ++ String dollar post) exprs tools) =
              o1 <- renderText (mkStep id pre exprs tools) ;;
              o2 <- renderFrom exprs (Some dollar) (S (String.length pre))
                      post ;;
              Ok (o1 ++ String dollar o2)%string).
  { rewrite renderText_app by apply Hb.
    destruct (renderText (mkStep id pre exprs tools)) as [o1|e1];
      cbn [bind]; [|reflexivity].
    destruct post as [|d post'].
    + reflexivity.
    + rewrite renderFrom_cons2. cbn [starts_with_digit] in Hp.
      rewrite Hp, andb_false_r.
      destruct (renderFrom exprs (Some dollar) (S (String.length pre))
                  (String d post')); reflexivity. }
  split; [|split; [exact E|split]].
  - intros m Hin Hidx.
    destruct (matchAll_placeholder_at _ _ Hin) as (p & Hq & Hat).
    rewrite Hidx in Hq. injection Hq as <-.
    rewrite placeholder_at_here, Hp, andb_false_r in Hat. discriminate Hat.
  - rewrite renderText_app by apply Hb.
    destruct (renderText (mkStep id pre exprs tools)); reflexivity.
  - intros o1 H1 Hn. rewrite E, H1. cbn [bind].
    rewrite (renderFrom_scan_nil exprs post (Some dollar)
               (S (String.length pre))).
    + reflexivity.
    + apply (scan_nil_shift post None (Some dollar) 0); [reflexivity|].
      apply no_placeholder_matchAll. exact Hn.
Qed.

Lemma renderText_lone_dollar_witness :
  starts_with_digit " per $0, or $" = false
  /\ renderText (mkStep "uuid-9" "Costs $ per $0, or $" [butter] [])
     = Ok "Costs $ per unsalted butter, or $"%string.
Proof.
  split; [reflexivity|].
  exact (proj1 (proj2 (renderText_lone_dollar
                         "uuid-9" [butter] [] "Costs " " per $0, or $"
                         eq_refl))).
Defined.

(** ** Brick graph *)

(** C4 (corrected): the claim against the code.  [connect] checks nothing:
    with an empty array it returns a connection that has no inputs, and
    that connection also renders without an exception. *)
Lemma connect_empty_inputs :
  exists c, c = connect [] "mix"
            /\ ~ (1 <= length (inputs c))
            /\ fmap textNodes (BrickConnectionView c) = Ok ["mix"%string].
Proof.
  exists (connect [] "mix"). split; [reflexivity|]. split.
  - cbn. lia.
  - reflexivity.
Qed.

(** C4 (as amended).  [connect] never fails and validates nothing: the
    connection it returns has exactly the inputs and the method it was
    given, so the number of inputs is the length of the array passed, zero
    for the empty array; a connection without inputs renders to its method
    label alone. *)
Theorem connect_keeps_arguments (ins : list BrickNode) (method : string) :
  inputs (connect ins method) = ins
  /\ connectionMethod (connect ins method) = method
  /\ length (inputs (connect ins method)) = length ins
  /\ fmap textNodes (BrickConnectionView (connect [] method)) = Ok [method].
Proof. repeat split. Qed.

(** C8.  The text of a rendered brick is the text of its parent's render
    (a brick or a connection, by its tag), followed by the brick's own steps
    rendered in array order; an exception of the parent comes before one of
    the steps.  Without a parent it is the brick's own steps alone.

    The own steps are pinned element by element: when [BrickView] returns,
    the text behind the parent's is a list [own] with one entry per step,
    the i-th being the render of the i-th step; when it throws, either the
    parent threw, or the parent rendered and the exception is that of the
    first own step that throws.  Four bricks are rendered in full: with a
    brick as parent, with the own steps reversed, without a parent, and with
    a connection as parent. *)
Theorem BrickView_parent_then_steps (b : Brick) :
  fmap textNodes (BrickView b) =
    (up <- match parent b with
           | Some p => fmap textNodes (BrickOrConnection p)
           | None => Ok []
           end ;;
     own <- mapM renderText (steps b) ;;
     Ok (up ++ own))
  /\ (forall id title steps outputs,
         fmap textNodes (BrickView (mkBrick None id title steps outputs))
         = mapM renderText steps)
  /\ (forall b', BrickOrConnection (IsBrick b') = BrickView b')
  /\ (forall c, BrickOrConnection (IsConnection c) = BrickConnectionView c)
  /\ match BrickView b with
     | Ok tree =>
         exists up own,
           match parent b with
           | Some p => fmap textNodes (BrickOrConnection p)
           | None => Ok []
           end = Ok up
           /\ Forall2 (fun s out => renderText s = Ok out) (steps b) own
           /\ textNodes tree = up ++ own
     | Throw e =>
         match parent b with
         | Some p => fmap textNodes (BrickOrConnection p)
         | None => Ok []
         end = Throw e
         \/ exists up done s rest,
             match parent b with
             | Some p => fmap textNodes (BrickOrConnection p)
             | None => Ok []
             end = Ok up
             /\ steps b = done ++ s :: rest
             /\ Forall (fun s' => exists out, renderText s' = Ok out) done
             /\ renderText s = Throw e
     end
  /\ fmap textNodes
       (BrickView
          (brick (fun t => t) "uuid-c" (Some (IsBrick brownButterBrick))
                 [step "uuid-a" "Add $0." [flour] None;
                  step "uuid-b" "Rest." [] None] None None))
     = Ok ["Cook unsalted butter in a saucepan.";
           "Add all-purpose flour."; "Rest."]%string
  /\ fmap textNodes
       (BrickView
          (brick (fun t => t) "uuid-c" (Some (IsBrick brownButterBrick))
                 [step "uuid-b" "Rest." [] None;
                  step "uuid-a" "Add $0." [flour] None] None None))
     = Ok ["Cook unsalted butter in a saucepan.";
           "Rest."; "Add all-purpose flour."]%string
  /\ fmap textNodes
       (BrickView
          (brick (fun t => t) "uuid-c" None
                 [step "uuid-a" "Add $0." [flour] None;
                  step "uuid-b" "Rest." [] None] None None))
     = Ok ["Add all-purpose flour."; "Rest."]%string
  /\ fmap textNodes
       (BrickView
          (brick (fun t => t) "uuid-c"
                 (Some (IsConnection
                          (connect [IsBrick brownButterBrick;
                                    IsBrick dryIngredientsBrick] "mix")))
                 [step "uuid-a" "Add $0." [flour] None;
                  step "uuid-b" "Rest." [] None] None None))
     = Ok ["Cook unsalted butter in a saucepan.";
           "Whisk all-purpose flour in a medium bowl."; "mix";
           "Add all-purpose flour."; "Rest."]%string.
Proof.
  assert (own : forall up steps,
             fmap textNodes
               (lis <- mapM StepView steps ;;
                Ok (RElement "div" (Some "brickWithParent")
                      [up; RElement "div" (Some "brick")
                             [RElement "ul" None lis]]))
             = (own <- mapM renderText steps ;; Ok (textNodes up ++ own))).
  { intros up l. rewrite <- textNodes_steps. unfold fmap.
    destruct (mapM StepView l) as [lis|e]; cbn [bind]; [|reflexivity].
    cbn [textNodes flat_map]. rewrite !app_nil_r. reflexivity. }
  assert (E : fmap textNodes (BrickView b) =
              (up <- match parent b with
                     | Some p => fmap textNodes (BrickOrConnection p)
                     | None => Ok []
                     end ;;
               own <- mapM renderText (steps b) ;;
               Ok (up ++ own))).
  { destruct b as [p i t s o]. cbn [parent steps BrickView].
    destruct p as [p|]; cbn [bind].
    + unfold fmap at 2.
      destruct (BrickOrConnection p) as [x|e]; cbn [bind]; [|reflexivity].
      rewrite own. cbn [textNodes flat_map]. rewrite !app_nil_r.
      reflexivity.
    + rewrite own. reflexivity. }
  split; [exact E|].
  split.
  { intros i t s o. cbn [BrickView bind]. rewrite own.
    cbn [textNodes app]. apply bind_ret_r. }
  split; [reflexivity|]. split; [reflexivity|].
  split; [|repeat split].
  unfold fmap at 1 in E.
  destruct (BrickView b) as [tree|e]; cbn [bind] in E.
  - destruct (match parent b with
              | Some p => fmap textNodes (BrickOrConnection p)
              | None => Ok []
              end) as [up|e]; cbn [bind] in E; [|discriminate E].
    destruct (mapM renderText (steps b)) as [ownl|e] eqn:M;
      cbn [bind] in E; [|discriminate E].
    injection E as E. exists up, ownl.
    split; [reflexivity|]. split; [apply mapM_Forall2; exact M | exact E].
  - destruct (match parent b with
              | Some p => fmap textNodes (BrickOrConnection p)
              | None => Ok []
              end) as [up|e']; cbn [bind] in E.
    + right.
      destruct (mapM renderText (steps b)) as [ownl|e'] eqn:M;
        cbn [bind] in E; [discriminate E|].
      injection E as <-.
      destruct (mapM_Throw _ _ _ M) as (done & x & rest & Hs & Hd & Hx).
      exists up, done, x, rest. repeat split; assumption.
    + left. exact (eq_sym E).
Qed.

(** C9.  The text of a rendered connection is the text of the render of each
    input, in array order (each one a brick or a connection, by its tag),
    followed by the method label; for inputs [A; B] and method "mix" it is
    A's, then B's, then "mix", and with the inputs swapped B's, then A's,
    then "mix". *)
Theorem BrickConnectionView_inputs_then_method (c : BrickConnection) :
  fmap textNodes (BrickConnectionView c) =
    (ins <- mapM (fun i => fmap textNodes (BrickOrConnection i)) (inputs c) ;;
     Ok (concat ins ++ [connectionMethod c]))
  /\ (forall A B,
         fmap textNodes (BrickConnectionView (connect [A; B] "mix")) =
         (a <- fmap textNodes (BrickOrConnection A) ;;
          b <- fmap textNodes (BrickOrConnection B) ;;
          Ok (a ++ b ++ ["mix"%string])))
  /\ fmap textNodes
       (BrickConnectionView
          (connect [IsBrick brownButterBrick; IsBrick dryIngredientsBrick]
                   "mix"))
     = Ok ["Cook unsalted butter in a saucepan.";
           "Whisk all-purpose flour in a medium bowl."; "mix"]%string
  /\ fmap textNodes
       (BrickConnectionView
          (connect [IsBrick dryIngredientsBrick; IsBrick brownButterBrick]
                   "mix"))
     = Ok ["Whisk all-purpose flour in a medium bowl.";
           "Cook unsalted butter in a saucepan."; "mix"]%string.
Proof.
  assert (gen : forall ins method,
             fmap textNodes (BrickConnectionView (mkConnection ins method)) =
             (xs <- mapM (fun i => fmap textNodes (BrickOrConnection i)) ins ;;
              Ok (concat xs ++ [method]))).
  { intros ins method. rewrite BrickConnectionView_unfold.
    pose proof (textNodes_inputs ins) as H. unfold fmap in H |- *.
    destruct (mapM BrickOrConnection ins) as [xs|e];
      destruct (mapM (fun i => x <- BrickOrConnection i ;; Ok (textNodes x)) ins)
        as [ys|e']; cbn [bind] in H |- *; try discriminate.
    - injection H as H. cbn [textNodes flat_map]. rewrite !app_nil_r, H.
      reflexivity.
    - exact H. }
  split; [|split; [|split]].
  - destruct c as [ins method]. apply gen.
  - intros A B. unfold connect. rewrite gen. cbn [mapM].
    destruct (fmap textNodes (BrickOrConnection A)) as [a|e];
      cbn [bind]; [|reflexivity].
    destruct (fmap textNodes (BrickOrConnection B)) as [b|e];
      cbn [bind]; [|reflexivity].
    cbn [concat]. rewrite app_nil_r, <- app_assoc. reflexivity.
  - reflexivity.
  - reflexivity.
Qed.

(** * Further properties of the code *)

(** ** [StepView.renderText] *)

Section RenderOutcome.

Variable exprs : list Expression.

Lemma skip_done (done rest : string) :
  skip (String.length done) (done ++ rest) = rest.
Proof.
  rewrite skip_append by apply Nat.le_refl. rewrite skip_all. reflexivity.
Qed.

Lemma scan_substring (rest : string) :
  forall done m,
    In m (scan (last_char done) (String.length done) rest) ->
    exists p, JS.index m = Some p
              /\ JS.matched m = JS.substring p (p + 2) (done ++ rest).
Proof.
  induction rest as [| c | c d r IHr IHd] using string_ind2; intros done m H.
  - destruct H.
  - destruct H.
  - rewrite scan_cons2 in H.
    destruct (lookbehind_ok (last_char done) && is_dollar c && JS.is_digit d).
    + destruct H as [<- | H].
      * exists (String.length done). split; [reflexivity|].
        unfold JS.substring. rewrite Nat.min_l, Nat.max_r by lia.
        replace (String.length done + 2 - String.length done) with 2 by lia.
        rewrite substring_skip_take, skip_done. reflexivity.
      * specialize (IHr ((done ++ String c "") ++ String d "")%string m).
        rewrite last_char_snoc, !length_snoc, !append_snoc in IHr.
        apply IHr. exact H.
    + specialize (IHd (done ++ String c "")%string m).
      rewrite last_char_snoc, length_snoc, append_snoc in IHd.
      apply IHd. exact H.
Qed.

Lemma placeholder_at_after_digit (done : string) (c d : ascii) (r : string) :
  JS.is_digit d = true ->
  placeholder_at (done ++ String c (String d r)) (S (String.length done))
  = false.
Proof.
  intro Hd.
  rewrite <- (append_snoc done c (String d r)), <- (length_snoc done c).
  rewrite placeholder_at_here, (digit_not_dollar d Hd), andb_false_r.
  reflexivity.
Qed.

Lemma renderFrom_outcome (rest : string) :
  forall done,
    if forallb (placeholder_ok exprs (done ++ rest))
               (seq (String.length done) (String.length rest))
    then exists out,
        renderFrom exprs (last_char done) (String.length done) rest = Ok out
    else renderFrom exprs (last_char done) (String.length done) rest
         = Throw MalformedPlaceholderError
         \/ renderFrom exprs (last_char done) (String.length done) rest
            = Throw OutOfBoundsReferenceError.
Proof.
  induction rest as [| c | c d r IHr IHd] using string_ind2; intro done.
  - cbn. eexists. reflexivity.
  - cbn [String.length seq forallb]. unfold placeholder_ok.
    rewrite placeholder_at_here. cbn [starts_with_digit].
    rewrite andb_false_r. cbn. eexists. reflexivity.
  - cbn [String.length seq forallb]. unfold placeholder_ok at 1.
    rewrite placeholder_at_here. cbn [starts_with_digit].
    rewrite renderFrom_cons2.
    destruct (lookbehind_ok (last_char done) && is_dollar c && JS.is_digit d)
      eqn:T.
    + assert (Hd : JS.is_digit d = true)
        by (apply andb_prop in T; apply T).
      unfold placeholder_ok at 1.
      rewrite (placeholder_at_after_digit done c d r Hd).
      unfold in_bounds_at at 1. rewrite get_append_next.
      cbn [negb orb andb].
      destruct (String.length done =? 0)%nat eqn:E0;
        [cbn [negb andb]; left; reflexivity|].
      destruct (lookup exprs d) as [e|];
        [|cbn [negb andb]; right; reflexivity].
      cbn [negb andb].
      specialize (IHr ((done ++ String c "") ++ String d "")%string).
      rewrite last_char_snoc, !length_snoc, !append_snoc in IHr.
      destruct (forallb (placeholder_ok exprs (done ++ String c (String d r)))
                        (seq (S (S (String.length done))) (String.length r))).
      * destruct IHr as [out ->]. eexists. reflexivity.
      * destruct IHr as [-> | ->]; [left | right]; reflexivity.
    + cbn [negb orb andb].
      specialize (IHd (done ++ String c "")%string).
      rewrite last_char_snoc, length_snoc, append_snoc in IHd.
      cbn [String.length seq forallb] in IHd.
      destruct (placeholder_ok exprs (done ++ String c (String d r))
                  (S (String.length done))
                && forallb (placeholder_ok exprs
                              (done ++ String c (String d r)))
                     (seq (S (S (String.length done))) (String.length r))).
      * destruct IHd as [out ->]. eexists. reflexivity.
      * destruct IHd as [-> | ->]; [left | right]; reflexivity.
Qed.

Lemma lookup_firstn (d : ascii) :
  lookup (firstn 10 exprs) d = lookup exprs d.
Proof.
  unfold lookup. destruct (JS.digit_of d) as [v|] eqn:Dv; [|reflexivity].
  pose proof (digit_of_range d v Dv) as R.
  rewrite nth_error_firstn.
  destruct (Nat.ltb_spec (Z.to_nat v) 10); [reflexivity | lia].
Qed.

End RenderOutcome.

Lemma renderFrom_ext (e1 e2 : list Expression) (s : string) :
  (forall d, lookup e1 d = lookup e2 d) ->
  forall prev pos, renderFrom e1 prev pos s = renderFrom e2 prev pos s.
Proof.
  intro H.
  induction s as [| c | c d r IHr IHd] using string_ind2; intros prev pos.
  - reflexivity.
  - reflexivity.
  - rewrite !renderFrom_cons2, H, IHr, IHd. reflexivity.
Qed.

(** X1.  What [text.matchAll(re)] yields: the matches are reported at exactly the
    offsets where a dollar sign that is not preceded by a backslash is
    followed by a digit, in increasing order, and every match text is the
    two characters of the step text at its offset: the dollar sign and one
    digit, however many digits follow. *)
Theorem matchAll_matches (text : string) :
  map JS.index (matchAll text)
  = map Some (filter (placeholder_at text) (seq 0 (String.length text)))
  /\ Forall (fun m =>
               exists p, JS.index m = Some p
                         /\ JS.matched m = JS.substring p (p + 2) text
                         /\ String.length (JS.matched m) = 2)
            (matchAll text).
Proof.
  split; [apply matchAll_positions|].
  apply Forall_forall. intros m H.
  destruct (scan_substring text ""%string m H) as (p & Hp & Hm).
  exists p. repeat split; [exact Hp | exact Hm |].
  destruct (scan_matched _ _ _ _ H) as (q & c & d & -> & _). reflexivity.
Qed.


(** On a step as its type declares it, the outcome of [renderText] is
    decided by the placeholder tokens of the text. *)
Lemma renderText_typed_outcome (step : Step) :
  if renderable step
  then exists out, renderText step = Ok out
  else if placeholder_at (text step) 0
       then renderText step = Throw MalformedPlaceholderError
       else renderText step = Throw OutOfBoundsReferenceError.
Proof.
  destruct step as [id t exprs tools].
  pose proof (renderFrom_outcome exprs t ""%string) as H.
  pose proof (renderText_malformed_iff exprs id tools t) as M.
  rewrite renderText_renderFrom in M |- *.
  unfold renderable. cbn [text stepExpressions append last_char String.length]
    in H, M |- *.
  destruct (forallb (placeholder_ok exprs t) (seq 0 (String.length t)));
    [exact H|].
  destruct (placeholder_at t 0).
  - apply M. reflexivity.
  - destruct H as [H | H]; [|exact H].
    apply M in H. discriminate H.
Qed.

(** On an array without [undefined] entries and without throwing methods
    the raw loop is the loop on the typed step. *)
Lemma renderLoopRaw_typed (text : string)
  (raw : list (option (unit -> result string))) :
  forallb (fun entry =>
             match entry with
             | Some toExprContent =>
                 match toExprContent tt with
                 | Ok _ => true
                 | Throw _ => false
                 end
             | None => false
             end) raw = true ->
  forall matches cursorPos parts,
    renderLoopRaw text raw matches cursorPos parts
    = renderLoop text (map typed_entry raw) matches cursorPos parts.
Proof.
  intro W. rewrite forallb_forall in W.
  induction matches as [|m more IH]; intros cursorPos parts;
    cbn [renderLoopRaw renderLoop]; [reflexivity|].
  destruct (JS.index m) as [[|n]|]; try reflexivity.
  destruct (JS.parseInt (JS.substring_from 1 (JS.matched m))) as [i|];
    [|reflexivity].
  rewrite length_map.
  destruct ((i <? 0)%Z || (i >=? Z.of_nat (length raw))%Z); [reflexivity|].
  rewrite nth_error_map.
  destruct (nth_error raw (Z.to_nat i)) as [entry|] eqn:N;
    cbn [option_map]; [|reflexivity].
  specialize (W entry (nth_error_In _ _ N)).
  destruct entry as [f|]; [|discriminate W].
  destruct (f tt) as [content|e] eqn:F; [|discriminate W].
  replace (toExprContent (typed_entry (Some f)) tt) with content
    by (cbn [typed_entry toExprContent]; rewrite F; reflexivity).
  apply IH.
Qed.

(** X3.  The outcome of [renderText] on a step whose expressions are as
    their type says (no entry [undefined], no [toExprContent] that throws)
    is decided by the placeholder tokens of the text: it returns a string
    exactly when no token is at offset 0 and the digit of every token is the
    index of an expression; otherwise it throws
    'missing index in regexp match' if the text starts with a token and
    'attempted to reference out-of-bounds ingredient' if not, and nothing
    else.  The condition on the array is needed: a token that refers to a
    hole of [new Array(3)] gives a TypeError, and an exception of
    [toExprContent] is passed on. *)
Theorem renderTextRaw_outcome (raw : RawStep) :
  well_typed raw = true ->
  (if renderable (typed_step raw)
   then exists out, renderTextRaw raw = Ok out
   else if placeholder_at (raw_text raw) 0
        then renderTextRaw raw = Throw MalformedPlaceholderError
        else renderTextRaw raw = Throw OutOfBoundsReferenceError)
  /\ renderTextRaw raw = renderText (typed_step raw)
  /\ renderTextRaw (mkRawStep "a $0" [None; None; None])
     = Throw (TypeError "stepExpressions[expressionIndex] is undefined")
  /\ renderTextRaw
       (mkRawStep "a $0" [Some (fun _ => Throw (Error "no content"))])
     = Throw (Error "no content").
Proof.
  intro W.
  assert (E : renderTextRaw raw = renderText (typed_step raw)).
  { unfold renderTextRaw. rewrite renderText_unfold.
    cbn [typed_step text stepExpressions].
    rewrite (renderLoopRaw_typed (raw_text raw) (raw_stepExpressions raw) W).
    reflexivity. }
  split; [|split; [exact E | split; reflexivity]].
  rewrite E. exact (renderText_typed_outcome (typed_step raw)).
Qed.

Lemma renderTextRaw_outcome_witness :
  well_typed (mkRawStep "Add $0 and $1."
                [Some (fun _ => Ok "flour"%string);
                 Some (fun _ => Ok "salt"%string)]) = true
  /\ (exists out,
         renderTextRaw (mkRawStep "Add $0 and $1."
                          [Some (fun _ => Ok "flour"%string);
                           Some (fun _ => Ok "salt"%string)]) = Ok out)
  /\ renderTextRaw (mkRawStep "Add $0 and $1."
                       [Some (fun _ => Ok "flour"%string);
                        Some (fun _ => Ok "salt"%string)])
     = Ok "Add flour and salt."%string.
Proof.
  split; [reflexivity|]. split.
  - exact (proj1 (renderTextRaw_outcome
                    (mkRawStep "Add $0 and $1."
                       [Some (fun _ => Ok "flour"%string);
                        Some (fun _ => Ok "salt"%string)]) eq_refl)).
  - exact (proj1 (proj2 (renderTextRaw_outcome
                    (mkRawStep "Add $0 and $1."
                       [Some (fun _ => Ok "flour"%string);
                        Some (fun _ => Ok "salt"%string)]) eq_refl))).
Defined.

(** X4.  Only the first ten expressions of a step can be referenced: a token has
    one digit, so dropping the expressions from the eleventh on changes
    neither the rendered text nor the exception. *)
Theorem renderText_first_ten (id : string) (t : string)
  (exprs : list Expression) (tools : list Tool) :
  renderText (mkStep id t exprs tools)
  = renderText (mkStep id t (firstn 10 exprs) tools).
Proof.
  rewrite !renderText_renderFrom. cbn [text stepExpressions].
  apply renderFrom_ext. intro d. symmetry. apply lookup_firstn.
Qed.

(** X5.  Rendering distributes over concatenation: unless the seam separates a
    dollar sign from a digit, the text [a ++ b] renders as [a] followed by
    the render of [b] at its offset, and the exception of [a], if any, comes
    first. *)
Theorem renderText_concat (id : string) (exprs : list Expression)
  (tools : list Tool) (a b : string) :
  ends_with_dollar a && starts_with_digit b = false ->
  renderText (mkStep id (a ++ b) exprs tools) =
  o1 <- renderText (mkStep id a exprs tools) ;;
  o2 <- renderFrom exprs (last_char a) (String.length a) b ;;
  Ok (o1 ++ o2)%string.
Proof. apply renderText_app. Qed.

Lemma renderText_concat_witness :
  ends_with_dollar "Add $0 and " && starts_with_digit "$1." = false
  /\ renderText (mkStep "uuid-10" "Add $0 and $1." [butter; flour] [])
     = Ok "Add unsalted butter and all-purpose flour."%string.
Proof.
  split; [reflexivity|].
  exact (renderText_concat "uuid-10" [butter; flour] [] "Add $0 and " "$1."
           eq_refl).
Defined.



(** ** [BrickView], [BrickConnectionView], [RecipeView] *)

Section GraphFacts.

Lemma mapM_app {A B : Type} (f : A -> result B) (xs ys : list A) :
  mapM f (xs ++ ys) =
  (a <- mapM f xs ;; b <- mapM f ys ;; Ok (a ++ b)).
Proof.
  induction xs as [|x xs IH]; cbn [app mapM].
  - cbn [bind]. symmetry. apply bind_ret_r.
  - destruct (f x) as [y|e]; cbn [bind]; [|reflexivity].
    rewrite IH.
    destruct (mapM f xs) as [a|e]; cbn [bind]; [|reflexivity].
    destruct (mapM f ys) as [b|e]; reflexivity.
Qed.

Lemma mapM_steps (steps : list Step) :
  mapM renderItem (map ItemStep steps) = mapM renderText steps.
Proof.
  induction steps as [|s l IH]; [reflexivity|].
  cbn [map mapM renderItem]. rewrite IH. reflexivity.
Qed.

Lemma BrickView_texts (p : option BrickNode) (i : string) (t : option string)
  (s : list Step) (o : list Ingredient) :
  fmap textNodes (BrickView (mkBrick p i t s o)) =
  (up <- match p with
         | Some n => fmap textNodes (BrickOrConnection n)
         | None => Ok []
         end ;;
   own <- mapM renderText s ;;
   Ok (up ++ own)).
Proof.
  cbn [BrickView]. rewrite <- textNodes_steps. unfold fmap.
  destruct p as [n|]; cbn [bind].
  - destruct (BrickOrConnection n) as [x|e]; cbn [bind]; [|reflexivity].
    destruct (mapM StepView s) as [lis|e]; cbn [bind]; [|reflexivity].
    cbn [textNodes flat_map]. rewrite !app_nil_r. reflexivity.
  - destruct (mapM StepView s) as [lis|e]; cbn [bind]; [|reflexivity].
    cbn [textNodes flat_map app]. rewrite !app_nil_r. reflexivity.
Qed.

Lemma BrickConnectionView_texts (ins : list BrickNode) (method : string) :
  fmap textNodes (BrickConnectionView (mkConnection ins method)) =
  (xs <- mapM (fun i => fmap textNodes (BrickOrConnection i)) ins ;;
   Ok (concat xs ++ [method])).
Proof.
  rewrite BrickConnectionView_unfold.
  pose proof (textNodes_inputs ins) as H. unfold fmap in H |- *.
  destruct (mapM BrickOrConnection ins) as [xs|e];
    destruct (mapM (fun i => x <- BrickOrConnection i ;; Ok (textNodes x)) ins)
      as [ys|e']; cbn [bind] in H |- *; try discriminate.
  - injection H as H. cbn [textNodes flat_map]. rewrite !app_nil_r, H.
    reflexivity.
  - exact H.
Qed.

(** Induction on the graph: a property of nodes that holds for a brick when
    it holds for its parent, and for a connection when it holds for all its
    inputs, holds for every node. *)
Lemma BrickNode_induction (R : BrickNode -> Prop) :
  (forall p i t s o,
      match p with Some n => R n | None => True end ->
      R (IsBrick (mkBrick p i t s o))) ->
  (forall ins m, Forall R ins -> R (IsConnection (mkConnection ins m))) ->
  forall n, R n.
Proof.
  intros HB HC. fix IH 1. intros [b|c].
  - destruct b as [p i t s o]. apply HB.
    destruct p as [n|]; [apply IH | exact I].
  - destruct c as [ins m]. apply HC.
    induction ins as [|x l IHl]; constructor; [apply IH | exact IHl].
Qed.

Lemma nodeItems_render (n : BrickNode) :
  fmap textNodes (BrickOrConnection n) = mapM renderItem (nodeItems n).
Proof.
  induction n as [p i t s o IHp | ins m IHins] using BrickNode_induction.
  - change (BrickOrConnection (IsBrick (mkBrick p i t s o)))
      with (BrickView (mkBrick p i t s o)).
    rewrite BrickView_texts. cbn [nodeItems brickItems].
    rewrite mapM_app, mapM_steps.
    destruct p as [n|]; [rewrite IHp|]; reflexivity.
  - change (BrickOrConnection (IsConnection (mkConnection ins m)))
      with (BrickConnectionView (mkConnection ins m)).
    rewrite BrickConnectionView_texts. cbn [nodeItems connectionItems].
    rewrite mapM_app. cbn [mapM renderItem bind].
    induction IHins as [|x l Hx _ IHl]; [reflexivity|].
    cbn [mapM]. rewrite mapM_app, Hx.
    destruct (mapM renderItem (nodeItems x)) as [a|e]; cbn [bind];
      [|reflexivity].
    destruct (mapM (fun i => fmap textNodes (BrickOrConnection i)) l)
      as [xs|e];
      destruct (mapM renderItem
                  ((fix inputItems (l0 : list BrickNode) : list Item :=
                      match l0 with
                      | [] => []
                      | input :: l' => nodeItems input ++ inputItems l'
                      end) l)) as [b|e'];
      cbn [bind] in IHl |- *; try discriminate IHl.
    + injection IHl as IHl. apply app_inv_tail in IHl. subst b.
      reflexivity.
    + exact IHl.
Qed.

End GraphFacts.

(** X7.  The render of a graph is the render of its items in document order: the
    text nodes of [BrickView], [BrickConnectionView] and [RecipeView] are
    the rendered steps and the connection labels, parents before own steps
    and inputs in array order before the label, and the render throws the
    exception of the first step in that order that throws. *)
Theorem graph_render_in_document_order :
  (forall b, fmap textNodes (BrickView b) = mapM renderItem (brickItems b))
  /\ (forall c, fmap textNodes (BrickConnectionView c)
                = mapM renderItem (connectionItems c))
  /\ (forall r, fmap textNodes (RecipeView r)
                = mapM renderItem (brickItems (tail r))).
Proof.
  split; [|split].
  - intro b. exact (nodeItems_render (IsBrick b)).
  - intro c. exact (nodeItems_render (IsConnection c)).
  - intro r.
    change (brickItems (tail r)) with (nodeItems (IsBrick (tail r))).
    rewrite <- (nodeItems_render (IsBrick (tail r))).
    unfold RecipeView, fmap. cbn [BrickOrConnection].
    destruct (BrickView (tail r)) as [x|e]; cbn [bind]; [|reflexivity].
    cbn [textNodes flat_map]. rewrite app_nil_r. reflexivity.
Qed.

(** X9.  Nothing is shared in the render: a node that fills several input slots
    of a connection is rendered once for every slot. *)
Theorem BrickConnectionView_repeated_input (n : BrickNode)
  (xs : list string) (k : nat) (method : string) :
  fmap textNodes (BrickOrConnection n) = Ok xs ->
  fmap textNodes (BrickConnectionView (connect (repeat n k) method))
  = Ok (concat (repeat xs k) ++ [method]).
Proof.
  intro H. unfold connect. rewrite BrickConnectionView_texts.
  replace (mapM (fun i => fmap textNodes (BrickOrConnection i)) (repeat n k))
    with (@Ok (list (list string)) (repeat xs k)); [reflexivity|].
  induction k as [|k IH]; [reflexivity|].
  cbn [repeat mapM]. rewrite H, <- IH. reflexivity.
Qed.

Lemma BrickConnectionView_repeated_input_witness :
  fmap textNodes
    (BrickConnectionView
       (connect [IsBrick brownButterBrick; IsBrick brownButterBrick] "mix"))
  = Ok ["Cook unsalted butter in a saucepan.";
        "Cook unsalted butter in a saucepan."; "mix"]%string.
Proof.
  exact (BrickConnectionView_repeated_input
           (IsBrick brownButterBrick)
           ["Cook unsalted butter in a saucepan."%string] 2 "mix" eq_refl).
Defined.

(** ** [amount] *)

Section AmountFacts.

Variable number : Type.
Variable numberToString : number -> string.




End AmountFacts.

(** ** [config/webpack.config.ts] *)

Section WebpackFacts.

Variable number : Type.
Variable numberToString : number -> string.

Lemma no_space_append (a b : string) :
  Webpack.no_space (a ++ b) = Webpack.no_space a && Webpack.no_space b.
Proof.
  induction a as [|c a IH]; cbn [append Webpack.no_space]; [reflexivity|].
  rewrite IH, andb_assoc. reflexivity.
Qed.

Lemma no_space_replace (s : string) :
  Webpack.no_space (Webpack.replace_spaces s) = true.
Proof.
  induction s as [|c s IH]; cbn [Webpack.replace_spaces Webpack.no_space];
    [reflexivity|].
  rewrite IH, andb_true_r. destruct (Ascii.eqb c " ") eqn:E.
  - reflexivity.
  - rewrite E. reflexivity.
Qed.

Lemma no_space_concat (sep : string) (l : list string) :
  Webpack.no_space sep = true ->
  forallb Webpack.no_space l = true ->
  Webpack.no_space (String.concat sep l) = true.
Proof.
  intros Hs. induction l as [|x l IH]; intro H; [reflexivity|].
  cbn [forallb] in H. apply andb_prop in H. destruct H as [Hx Hl].
  cbn [String.concat]. destruct l as [|y l]; [exact Hx|].
  rewrite !no_space_append, Hx, Hs. cbn [andb]. apply IH. exact Hl.
Qed.


End WebpackFacts.


(** X12.  The query string built from the fonts contains no space, as
    long as the weights print without one: in a font name every space is
    replaced by a plus sign and every other character is kept, at its
    position.  The two sample fonts give
    [family=Open+Sans&family=Roboto+Slab:wght@400;700]. *)
Theorem fonts_no_space (number : Type) (numberToString : number -> string)
  (m : Webpack.PageManifest number) (q : string) :
  Webpack.fonts number numberToString m = Some q ->
  Webpack.weights_spaceless number numberToString m = true ->
  Webpack.no_space q = true
  /\ (forall s,
         String.length (Webpack.replace_spaces s) = String.length s
         /\ forall i,
             String.get i (Webpack.replace_spaces s)
             = match String.get i s with
               | Some c => Some (if Ascii.eqb c " " then "+"%char else c)
               | None => None
               end)
  /\ Webpack.fonts nat Webpack.natToString Webpack.sample_manifest
     = Some "family=Open+Sans&family=Roboto+Slab:wght@400;700"%string.
Proof.
  intros H W. split; [|split; [|reflexivity]].
  - revert H W. unfold Webpack.fonts, Webpack.weights_spaceless.
    destruct (Webpack.manifest_head number m) as [h|]; [|discriminate].
    destruct (Webpack.googleFonts number h) as [fs|]; [|discriminate].
    intros H W. injection H as <-.
    apply no_space_concat; [reflexivity|].
    rewrite forallb_forall in W |- *. intros s Hs.
    apply in_map_iff in Hs. destruct Hs as (f & <- & Hf).
    specialize (W f Hf). destruct f as [name | name ws];
      cbn [Webpack.fontParam].
    + rewrite no_space_append, no_space_replace. reflexivity.
    + rewrite !no_space_append, no_space_replace. cbn [andb].
      change (Webpack.no_space "family=") with true.
      change (Webpack.no_space ":wght@") with true. cbn [andb].
      apply no_space_concat; [reflexivity|].
      rewrite forallb_forall in W |- *. intros s Hs.
      apply in_map_iff in Hs. destruct Hs as (w & <- & Hw).
      apply W. exact Hw.
  - intro s. split.
    + induction s as [|c s IH]; cbn [Webpack.replace_spaces String.length];
        congruence.
    + induction s as [|c s IH]; intro i; cbn [Webpack.replace_spaces].
      * destruct i; reflexivity.
      * destruct i as [|i]; cbn [String.get]; [reflexivity | apply IH].
Qed.

Lemma fonts_no_space_witness :
  exists q,
    Webpack.fonts nat Webpack.natToString Webpack.sample_manifest = Some q
    /\ q = "family=Open+Sans&family=Roboto+Slab:wght@400;700"%string
    /\ Webpack.no_space q = true.
Proof.
  exists "family=Open+Sans&family=Roboto+Slab:wght@400;700"%string.
  split; [reflexivity|]. split; [reflexivity|].
  exact (proj1 (fonts_no_space nat Webpack.natToString
                  Webpack.sample_manifest
                  "family=Open+Sans&family=Roboto+Slab:wght@400;700"
                  eq_refl eq_refl)).
Defined.
